(** * LVS configuration loader of mpw_precheck: [checks/utils/utils.py]

    A shallow embedding of [is_valid], [substitute_env_variables] and
    [parse_config_file], with the properties of the hierarchical
    configuration loader stated and proved over it.

    Conventions of the embedding.
    - A Python [str] is a [string]; its characters are read as the code
      points 0..255.
    - The environment [be_env] (a [dict] from [str] to [str]) is a
      [gmap string string].
    - [logging] calls append records to a log carried in the state.
    - A [return] inside a loop and a raised exception are explicit
      results of the loop functions.
    - The interpreter bounds the call stack: [parse_config_file] takes the
      number of nested calls still available, and a call beyond it raises
      [RecursionError] at the call site. There the logging calls take no
      frames; the module [Stack] charges them too, so that a logging call
      can raise, and is used where that matters. *)

From Stdlib Require Import Ascii NArith.
From Stdlib Require DecimalString.
From stdpp Require Import gmap strings list.

Set Warnings "-register-all".

(** ** Characters and strings of the Python runtime *)

Module Py.

(** [\w] of [re] on [str] patterns: alphanumeric code points and the
    underscore. On 0..255 these are the ASCII letters and digits, [_], and
    the Latin-1 letters and numerics. *)
Definition word_char (c : ascii) : bool :=
  let n := N_of_ascii c in
  ((48 <=? n) && (n <=? 57) || (65 <=? n) && (n <=? 90) || (n =? 95)
   || (97 <=? n) && (n <=? 122)
   || (n =? 170) || (n =? 178) || (n =? 179) || (n =? 181) || (n =? 185)
   || (n =? 186) || (188 <=? n) && (n <=? 190)
   || (192 <=? n) && (n <=? 214) || (216 <=? n) && (n <=? 246)
   || (248 <=? n) && (n <=? 255))%N.

(** [str.isspace] on a single character, as used by [str.split()]. *)
Definition isspace (c : ascii) : bool :=
  let n := N_of_ascii c in
  ((9 <=? n) && (n <=? 13) || (28 <=? n) && (n <=? 32)
   || (n =? 133) || (n =? 160))%N.

(** [s.startswith(w)], returning what follows the prefix. *)
Fixpoint strip_prefix (w s : string) : option string :=
  match w with
  | EmptyString => Some s
  | String a w' =>
      match s with
      | EmptyString => None
      | String b s' => if Ascii.eqb a b then strip_prefix w' s' else None
      end
  end.

Definition startswith (s w : string) : bool :=
  match strip_prefix w s with Some _ => true | None => false end.

(** [c in s] for a one-character [c]. *)
Fixpoint contains (c : ascii) (s : string) : bool :=
  match s with
  | EmptyString => false
  | String b s' => Ascii.eqb c b || contains c s'
  end.

(** [s.replace(w, v, 1)]: the leftmost occurrence of [w] becomes [v]. *)
Fixpoint replace1 (s w v : string) : string :=
  match strip_prefix w s with
  | Some rest => v +:+ rest
  | None =>
      match s with
      | EmptyString => EmptyString
      | String c s' => String c (replace1 s' w v)
      end
  end.

(** The longest prefix of word characters, the [\w+] of the pattern. *)
Fixpoint word_prefix (s : string) : string :=
  match s with
  | EmptyString => EmptyString
  | String c s' => if word_char c then String c (word_prefix s') else EmptyString
  end.

(** [re.findall(r'\$\w+', s)]. A match starts at a [$] that a word
    character follows and takes the whole run of word characters. [$] is
    not a word character, so no match starts inside another one and the
    scan may go on from the next character. *)
Fixpoint findall (s : string) : list string :=
  match s with
  | EmptyString => []
  | String c s' =>
      if Ascii.eqb c "$"%char then
        match word_prefix s' with
        | EmptyString => findall s'
        | name => String "$"%char name :: findall s'
        end
      else findall s'
  end.

(** [s.split()]: the maximal runs of non-whitespace characters. [cur] is
    the run being read. *)
Fixpoint split_from (cur : string) (s : string) : list string :=
  match s with
  | EmptyString => match cur with EmptyString => [] | _ => [cur] end
  | String c s' =>
      if isspace c then
        match cur with
        | EmptyString => split_from EmptyString s'
        | _ => cur :: split_from EmptyString s'
        end
      else split_from (cur +:+ String c EmptyString) s'
  end.

Definition split (s : string) : list string := split_from EmptyString s.

(** [' '.join(l)]. *)
Fixpoint join (l : list string) : string :=
  match l with
  | [] => EmptyString
  | [x] => x
  | x :: l' => x +:+ String " "%char (join l')
  end.

(** [w[1:]]. *)
Definition tail (w : string) : string :=
  match w with
  | EmptyString => EmptyString
  | String _ w' => w'
  end.

End Py.

(** ** Documents, files, exceptions and the log *)

(** What [json.load] returns. Numbers keep their literal: the loader only
    asks whether a value is a list or a string. *)
Inductive json :=
  | JNull
  | JBool (b : bool)
  | JNumber (literal : string)
  | JString (s : string)
  | JArray (elts : list json)
  | JObject (items : list (string * json)).

(** What [open] followed by [json.load] does on a path: [open] raises, the
    decoder raises, or a value is returned. *)
Inductive file :=
  | Unreadable
  | Malformed
  | Parsed (data : json).

(** The exceptions the loader can meet, all subclasses of [Exception]. *)
Inductive pyexn :=
  | OSError (path : string)
  | ValueError
  | AttributeError (attr : string)
  | KeyError (key : string)
  | UnboundLocalError (name : string)
  | RecursionError.

(** Records handed to [logging]; [ERROR_type] and [ERROR_args] stand for
    [logging.error(type(err))] and [logging.error(err.args)]. *)
Inductive log_record :=
  | INFO (msg : string)
  | ERROR (msg : string)
  | ERROR_type (e : pyexn)
  | ERROR_args (e : pyexn).

#[global] Instance pyexn_eq_dec : EqDecision pyexn.
Proof. solve_decision. Defined.

#[global] Instance log_record_eq_dec : EqDecision log_record.
Proof. solve_decision. Defined.

Record state := State {
  be_env : gmap string string;
  log : list log_record
}.

Definition logging (r : log_record) (st : state) : state :=
  State (be_env st) (log st ++ [r]).

Definition logging_all (rs : list log_record) (st : state) : state :=
  State (be_env st) (log st ++ rs).

Definition setitem (key value : string) (st : state) : state :=
  State (<[key := value]> (be_env st)) (log st).

(** How a statement of the [try] block ends: control goes on with the
    frame's locals, the function returns, or an exception is raised. *)
Inductive step (L : Type) :=
  | Next (locals : L) (st : state)
  | Return (b : bool) (st : state)
  | Raise (e : pyexn) (st : state).
Arguments Next {L} locals st.
Arguments Return {L} b st.
Arguments Raise {L} e st.

(** How a call of [parse_config_file] ends for its caller. *)
Inductive outcome :=
  | Returned (b : bool)
  | Raised (e : pyexn).

Definition INCLUDE_CONFIGS : string := "INCLUDE_CONFIGS".

Definition absolute_path_msg (val : string) : string :=
  val +:+ " is an absolute path, paths must start with $PDK_ROOT or $UPRJ_ROOT".

Definition missing_variable_msg (w : string) : string :=
  "ERROR LVS FAILED, couldn't find environment variable " +:+ w.

Definition loading_msg (json_file : string) : string :=
  "Loading LVS environment from " +:+ json_file.

Definition error_with_file_msg (json_file : string) : string :=
  "Error with file " +:+ json_file.

(** ** [is_valid] and [substitute_env_variables] *)

Definition is_valid (s : string) : bool :=
  if Py.startswith s "/" then false else true.

(** The loop [for w in words] of [substitute_env_variables]: the result
    ([None] for Python's [None]) and the records logged. *)
Fixpoint for_w (words : list string) (s : string)
    (env : gmap string string) : option string * list log_record :=
  match words with
  | [] => (Some s, [])
  | w :: words' =>
      let env_var := Py.tail w in
      match env !! env_var with
      | Some x => for_w words' (Py.replace1 s w x) env
      | None => (None, [ERROR (missing_variable_msg w)])
      end
  end.

Definition substitute_env_variables (s : string)
    (env : gmap string string) : option string * list log_record :=
  if Py.contains "$" s
  then for_w (Py.findall s) s env
  else (Some s, []).

(** Strings made of word characters only. *)
Fixpoint all_word (s : string) : bool :=
  match s with
  | EmptyString => true
  | String c s' => Py.word_char c && all_word s'
  end.

(** One [replace] per token, in the order of the scan, with the values the
    environment gives. *)
Definition replace_each (env : gmap string string) (words : list string)
    (s : string) : string :=
  fold_left (fun acc w => Py.replace1 acc w (default "" (env !! Py.tail w)))
    words s.

(** ** [parse_config_file] *)

(** [be_env[key].split() if key in be_env else []]. *)
Definition initial_exports (key : string) (st : state) : list string :=
  match be_env st !! key with
  | Some x => Py.split x
  | None => []
  end.

Section Frame.

(** The files on disk, and the nested call of [parse_config_file]. *)
Variable fs : string -> file.
Variable call : string -> state -> outcome * state.

(** The loop [for val in value] of a list-valued [key]. The locals it
    changes are [exports] and [val] ([None] while [val] is unbound). *)
Fixpoint for_val (key : string) (value : list json) (exports : list string)
    (val : option string) (st : state) : step (list string * option string) :=
  match value with
  | [] => Next (exports, val) st
  | JString v :: value' =>
      if is_valid v then
        match substitute_env_variables v (be_env st) with
        | (None, msgs) => Return false (logging_all msgs st)
        | (Some v, _) =>
            if decide (v ∈ exports) then for_val key value' exports (Some v) st
            else
              let exports := exports ++ [v] in
              if decide (key = INCLUDE_CONFIGS) then
                match be_env st !! INCLUDE_CONFIGS with
                | None => Raise (KeyError INCLUDE_CONFIGS) st
                | Some old =>
                    let st := setitem INCLUDE_CONFIGS (old +:+ " " +:+ v) st in
                    match call v st with
                    | (Returned true, st) => for_val key value' exports (Some v) st
                    | (Returned false, st) => Return false st
                    | (Raised e, st) => Raise e st
                    end
                end
              else for_val key value' exports (Some v) st
        end
      else Return false (logging (ERROR (absolute_path_msg v)) st)
  | _ :: _ => Raise (AttributeError "startswith") st
  end.

(** One round of [for key, value in data.items()]; [val] is the only
    local that one round leaves to the next. *)
Definition for_item (key : string) (value : json) (val : option string)
    (st : state) : step (option string) :=
  match value with
  | JArray elts =>
      let exports := initial_exports key st in
      match for_val key elts exports val st with
      | Next (exports, val) st =>
          if decide (key = INCLUDE_CONFIGS) then Next val st
          else Next val (setitem key (Py.join exports) st)
      | Return b st => Return b st
      | Raise e st => Raise e st
      end
  | JString value =>
      if is_valid value then
        match substitute_env_variables value (be_env st) with
        | (None, msgs) => Return false (logging_all msgs st)
        | (Some value, _) => Next val (setitem key value st)
        end
      else
        match val with
        | None => Raise (UnboundLocalError "val") st
        | Some val => Return false (logging (ERROR (absolute_path_msg val)) st)
        end
  | _ => Raise (AttributeError "startswith") st
  end.

Fixpoint for_items (items : list (string * json)) (val : option string)
    (st : state) : step (option string) :=
  match items with
  | [] => Next val st
  | (key, value) :: items' =>
      match for_item key value val st with
      | Next val st => for_items items' val st
      | Return b st => Return b st
      | Raise e st => Raise e st
      end
  end.

(** The body of the [try]. *)
Definition try_body (json_file : string) (st : state) : step unit :=
  match fs json_file with
  | Unreadable => Raise (OSError json_file) st
  | Malformed => Raise ValueError st
  | Parsed (JObject items) =>
      match for_items items None st with
      | Next _ st => Return true st
      | Return b st => Return b st
      | Raise e st => Raise e st
      end
  | Parsed _ => Raise (AttributeError "items") st
  end.

(** The records of the [except Exception as err] clause. *)
Definition except_log (err : pyexn) (json_file : string) : list log_record :=
  [ERROR_type err; ERROR_args err; ERROR (error_with_file_msg json_file)].

(** One activation of [parse_config_file]. *)
Definition frame (json_file : string) (st : state) : outcome * state :=
  let st := logging (INFO (loading_msg json_file)) st in
  match try_body json_file st with
  | Next _ st => (Returned true, st)
  | Return b st => (Returned b, st)
  | Raise err st => (Returned false, logging_all (except_log err json_file) st)
  end.

End Frame.

(** [parse_config_file] when [depth] more activations fit on the stack:
    a nested call beyond that raises [RecursionError] where it is made. *)
Fixpoint parse_config_file (depth : nat) (fs : string -> file)
    (json_file : string) (be_env : state) : outcome * state :=
  frame fs
    (fun child st =>
       match depth with
       | O => (Raised RecursionError, st)
       | S depth' => parse_config_file depth' fs child st
       end)
    json_file be_env.

(** The nested call as the activation at [depth] sees it. *)
Definition nested_call (depth : nat) (fs : string -> file)
    (child : string) (st : state) : outcome * state :=
  match depth with
  | O => (Raised RecursionError, st)
  | S depth' => parse_config_file depth' fs child st
  end.

(** The state in which the [try] block of a call starts. *)
Definition entered (json_file : string) (st : state) : state :=
  logging (INFO (loading_msg json_file)) st.

(** A string that passes [is_valid] and whose tokens are all defined, and
    one that passes with some token undefined. *)
Definition resolvable (env : gmap string string) (s : string) : Prop :=
  is_valid s = true
  ∧ Forall (fun w => is_Some (env !! Py.tail w)) (Py.findall s).

Definition dangling (env : gmap string string) (s : string) : Prop :=
  is_valid s = true
  ∧ Exists (fun w => env !! Py.tail w = None) (Py.findall s).

(** What a resolvable string is substituted to. *)
Definition substituted (env : gmap string string) (s : string) : string :=
  replace_each env (Py.findall s) s.

(** [if val not in exports: exports.append(val)], for each value. *)
Definition extend (exports vals : list string) : list string :=
  fold_left (fun exports v => if decide (v ∈ exports) then exports else exports ++ [v])
    vals exports.

(** The files of a directory listing; any other path cannot be opened. *)
Fixpoint disk (files : list (string * json)) (path : string) : file :=
  match files with
  | [] => Unreadable
  | (p, data) :: files' => if decide (path = p) then Parsed data else disk files' path
  end.

Definition includes (paths : list string) : json :=
  JObject [(INCLUDE_CONFIGS, JArray (JString <$> paths))].

(** How often a path was loaded, read off the log. *)
Definition loads (path : string) (st : state) : nat :=
  length (filter (fun r => r = INFO (loading_msg path)) (log st)).

Definition seed (top : string) : state :=
  State {[ INCLUDE_CONFIGS := top ]} [].

Definition diamond : string -> file :=
  disk [("A", includes ["B"; "C"]); ("B", includes ["D"]);
        ("C", includes ["D"]); ("D", JObject [])].

Definition shortcut : string -> file :=
  disk [("A", includes ["B"; "D"]); ("B", includes ["D"]); ("D", JObject [])].

(** The reading under which replaced text is never touched again: every
    token of the input is replaced where it stands, and whatever is put in
    its place, like every other character, is passed through. [skip]
    counts the characters of the current token still to pass. *)
Fixpoint in_place_from (skip : nat) (env : gmap string string) (s : string)
    : string :=
  match s with
  | EmptyString => EmptyString
  | String c s' =>
      match skip with
      | S skip' => in_place_from skip' env s'
      | O =>
          if Ascii.eqb c "$"%char then
            match Py.word_prefix s' with
            | EmptyString => String c (in_place_from 0 env s')
            | name =>
                default "" (env !! name)
                +:+ in_place_from (String.length name) env s'
            end
          else String c (in_place_from 0 env s')
      end
  end.

Definition substitute_in_place (env : gmap string string) (s : string)
    : string :=
  in_place_from 0 env s.

(** A scalar holding an absolute path, alone and after a list. *)
Definition absolute_scalar : string -> file :=
  disk [("cfg", JObject [("LAYOUT_FILE", JString "/abs/top.gds")])].

Definition absolute_scalar_after_list : string -> file :=
  disk [("cfg", JObject [("LVS_IGNORE", JArray [JString "cell"]);
                         ("LAYOUT_FILE", JString "/abs/top.gds")])].


(** The environment and document of the ignore-list example. *)
Definition pdk_seed : state :=
  State (<["PDK_ROOT" := "/pdk"]> {[ INCLUDE_CONFIGS := "cfg" ]}) [].

Definition ignore_list : string -> file :=
  disk [("cfg", JObject [("LVS_IGNORE", JArray [JString "$PDK_ROOT/ignore1";
                                                JString "$PDK_ROOT/ignore1"])])].

(** An include list whose second element names an undefined variable. *)
Definition partial_include : string -> file :=
  disk [("top", includes ["child"; "$UNDEFINED"]); ("child", JObject [])].


(** Strings without whitespace, and the non-empty ones among them: what
    [split] returns as one piece. *)
Fixpoint no_space (s : string) : bool :=
  match s with
  | EmptyString => true
  | String c s' => negb (Py.isspace c) && no_space s'
  end.

Definition atom (x : string) : bool :=
  match x with
  | EmptyString => false
  | _ => no_space x
  end.

(** The variable names a value of a document refers to. *)
Definition element_names (elt : json) : list string :=
  match elt with
  | JString s => Py.tail <$> Py.findall s
  | _ => []
  end.

Definition references (value : json) : list string :=
  match value with
  | JArray elts => elts ≫= element_names
  | _ => element_names value
  end.

(** A document in which no value refers to the key of its own entry or
    of a later one. *)
Fixpoint backward (items : list (string * json)) : bool :=
  match items with
  | [] => true
  | (key, value) :: items' =>
      forallb (fun n => bool_decide (n ∉ key :: items'.*1)) (references value)
      && backward items'
  end.

(** Every list element is substituted to a single piece. *)
Definition clean (env : gmap string string) (value : json) : Prop :=
  match value with
  | JArray elts =>
      Forall (fun elt =>
                match elt with
                | JString s => atom (substituted env s) = true
                | _ => True
                end) elts
  | _ => True
  end.

(** The same for the elements that get as far: a list element that passes
    [is_valid] and is substituted gives a single piece. *)
Definition piece (env : gmap string string) (elt : json) : bool :=
  match elt with
  | JString s =>
      if is_valid s then
        match (substitute_env_variables s env).1 with
        | Some v => atom v
        | None => true
        end
      else true
  | _ => true
  end.

Definition pieces (env : gmap string string) (value : json) : bool :=
  match value with
  | JArray elts => forallb (piece env) elts
  | _ => true
  end.

(** [initial_exports] read off the environment. *)
Definition exports_in (env : gmap string string) (key : string) : list string :=
  match env !! key with
  | Some x => Py.split x
  | None => []
  end.

(** The string a round on [key] writes when it runs to its end. *)
Definition written (env : gmap string string) (key : string) (value : json)
    (x : string) : Prop :=
  match value with
  | JString s => is_valid s = true ∧ substitute_env_variables s env = (Some x, [])
  | JArray elts =>
      ∃ strs, elts = (JString <$> strs) ∧ Forall (resolvable env) strs
              ∧ x = Py.join (extend (exports_in env key) (substituted env <$> strs))
  | _ => False
  end.

(** Documents that are not resolved to the same environment twice: a
    value that refers to its own key, one that refers to a later key, a
    list element with a blank, and an empty list element. *)
Definition one_file (items : list (string * json)) : string -> file :=
  disk [("cfg", JObject items)].

Definition self_reference : list (string * json) :=
  [("A", JString "$A/x")].

Definition forward_reference : list (string * json) :=
  [("X", JString "$Y"); ("Y", JString "new")].

Definition blank_element : list (string * json) :=
  [("L", JArray [JString "a b"])].

Definition empty_element : list (string * json) :=
  [("L", JArray [JString ""; JString "a"])].

(** Documents with a reference to an earlier key: one that resolves, and
    one that fails at its last entry. *)
Definition lvs_document : list (string * json) :=
  [("TOP", JString "chip");
   ("LVS_IGNORE", JArray [JString "$PDK_ROOT/ignore1"; JString "$PDK_ROOT/ignore1"]);
   ("LAYOUT_FILE", JString "$PDK_ROOT/$TOP.gds")].

Definition failing_document : list (string * json) :=
  [("TOP", JString "chip");
   ("LVS_IGNORE", JArray [JString "$TOP.cell"]);
   ("LAYOUT_FILE", JString "$UNDEFINED/$TOP.gds")].

(** Resolving a one-file document once and twice. *)
Definition once (items : list (string * json)) (st : state) : outcome * state :=
  parse_config_file 0 (one_file items) "cfg" st.

Definition twice (items : list (string * json)) (st : state) : outcome * state :=
  parse_config_file 0 (one_file items) "cfg" (once items st).2.

(** Whether a loop ran to its end. *)
Definition completes {L : Type} (r : step L) : bool :=
  match r with
  | Next _ _ => true
  | _ => false
  end.

(** The state a statement of the [try] block ends in. *)
Definition step_state {L : Type} (r : step L) : state :=
  match r with
  | Next _ st => st
  | Return _ st => st
  | Raise _ st => st
  end.

(** No variable is lost and the log is only extended. *)
Definition grows (st st' : state) : Prop :=
  dom (be_env st) ⊆ dom (be_env st') ∧ ∃ more, log st' = log st ++ more.

(** ** The call stack

    [parse_config_file] above charges the stack for nested loads only.
    The definitions of this module also charge the logging calls, the
    deepest calls the function makes: [need r] is the number of frames that
    the logging call for the record [r] takes, counted from the activation
    of [parse_config_file] that makes it (itself or through
    [substitute_env_variables]), and [room] is the number of frames left to
    that activation. A logging call that does not fit raises
    [RecursionError] and logs nothing. With [need] constantly 0 these are
    the definitions above. *)
Module Stack.

Section Frame.

Variable need : log_record -> nat.
Variable fs : string -> file.
Variable call : string -> state -> outcome * state.
Variable room : nat.

Definition emit (r : log_record) (st : state) : option state :=
  if decide (need r ≤ room) then Some (logging r st) else None.

(** Logging calls in sequence: whether all of them were made, and the
    state reached. *)
Fixpoint emit_all (rs : list log_record) (st : state) : bool * state :=
  match rs with
  | [] => (true, st)
  | r :: rs' =>
      match emit r st with
      | Some st => emit_all rs' st
      | None => (false, st)
      end
  end.

Fixpoint for_val (key : string) (value : list json) (exports : list string)
    (val : option string) (st : state) : step (list string * option string) :=
  match value with
  | [] => Next (exports, val) st
  | JString v :: value' =>
      if is_valid v then
        match substitute_env_variables v (be_env st) with
        | (None, msgs) =>
            match emit_all msgs st with
            | (true, st) => Return false st
            | (false, st) => Raise RecursionError st
            end
        | (Some v, _) =>
            if decide (v ∈ exports) then for_val key value' exports (Some v) st
            else
              let exports := exports ++ [v] in
              if decide (key = INCLUDE_CONFIGS) then
                match be_env st !! INCLUDE_CONFIGS with
                | None => Raise (KeyError INCLUDE_CONFIGS) st
                | Some old =>
                    let st := setitem INCLUDE_CONFIGS (old +:+ " " +:+ v) st in
                    match call v st with
                    | (Returned true, st) => for_val key value' exports (Some v) st
                    | (Returned false, st) => Return false st
                    | (Raised e, st) => Raise e st
                    end
                end
              else for_val key value' exports (Some v) st
        end
      else
        match emit (ERROR (absolute_path_msg v)) st with
        | Some st => Return false st
        | None => Raise RecursionError st
        end
  | _ :: _ => Raise (AttributeError "startswith") st
  end.

Definition for_item (key : string) (value : json) (val : option string)
    (st : state) : step (option string) :=
  match value with
  | JArray elts =>
      let exports := initial_exports key st in
      match for_val key elts exports val st with
      | Next (exports, val) st =>
          if decide (key = INCLUDE_CONFIGS) then Next val st
          else Next val (setitem key (Py.join exports) st)
      | Return b st => Return b st
      | Raise e st => Raise e st
      end
  | JString value =>
      if is_valid value then
        match substitute_env_variables value (be_env st) with
        | (None, msgs) =>
            match emit_all msgs st with
            | (true, st) => Return false st
            | (false, st) => Raise RecursionError st
            end
        | (Some value, _) => Next val (setitem key value st)
        end
      else
        match val with
        | None => Raise (UnboundLocalError "val") st
        | Some val =>
            match emit (ERROR (absolute_path_msg val)) st with
            | Some st => Return false st
            | None => Raise RecursionError st
            end
        end
  | _ => Raise (AttributeError "startswith") st
  end.

Fixpoint for_items (items : list (string * json)) (val : option string)
    (st : state) : step (option string) :=
  match items with
  | [] => Next val st
  | (key, value) :: items' =>
      match for_item key value val st with
      | Next val st => for_items items' val st
      | Return b st => Return b st
      | Raise e st => Raise e st
      end
  end.

Definition try_body (json_file : string) (st : state) : step unit :=
  match fs json_file with
  | Unreadable => Raise (OSError json_file) st
  | Malformed => Raise ValueError st
  | Parsed (JObject items) =>
      match for_items items None st with
      | Next _ st => Return true st
      | Return b st => Return b st
      | Raise e st => Raise e st
      end
  | Parsed _ => Raise (AttributeError "items") st
  end.

(** One activation. [logging.info] stands before the [try], and the
    handler's own logging is not protected either: an exception of these
    calls leaves the activation. *)
Definition frame (json_file : string) (st : state) : outcome * state :=
  match emit (INFO (loading_msg json_file)) st with
  | None => (Raised RecursionError, st)
  | Some st =>
      match try_body json_file st with
      | Next _ st => (Returned true, st)
      | Return b st => (Returned b, st)
      | Raise err st =>
          match emit_all (except_log err json_file) st with
          | (true, st) => (Returned false, st)
          | (false, st) => (Raised RecursionError, st)
          end
      end
  end.

End Frame.

Fixpoint parse_config_file (need : log_record -> nat) (room : nat)
    (fs : string -> file) (json_file : string) (be_env : state)
    : outcome * state :=
  frame need fs
    (fun child st =>
       match room with
       | O => (Raised RecursionError, st)
       | S room' => parse_config_file need room' fs child st
       end)
    room json_file be_env.

Definition nested_call (need : log_record -> nat) (room : nat)
    (fs : string -> file) (child : string) (st : state) : outcome * state :=
  match room with
  | O => (Raised RecursionError, st)
  | S room' => parse_config_file need room' fs child st
  end.

End Stack.

(** Every logging call takes [frames] frames. *)
Definition uniform (frames : nat) (r : log_record) : nat := frames.

(** The handler's first call, which formats a class, takes one frame more
    than the others. *)
Definition deeper_handler (frames : nat) (r : log_record) : nat :=
  match r with
  | ERROR_type _ => S frames
  | _ => frames
  end.

(** A file that includes another. *)
Definition parent_child : string -> file :=
  disk [("top", includes ["child"]); ("child", JObject [])].

(** ** [get_project_config] *)

Section ProjectConfig.

(** [pathlib.Path] with its [/] and [exists()], as the function uses them. *)
Variable Path : Type.
Variable joinpath : Path -> string -> Path.
Variable path_exists : Path -> bool.

(** The values of [project_config]: strings and paths. *)
Inductive config_value :=
  | Text (s : string)
  | Location (p : Path).

(** The function returns the dictionary or leaves through [sys.exit] after
    [logging.fatal]. *)
Inductive project_result :=
  | Config (project_config : gmap string config_value)
  | SystemExit (code : Z) (fatal : string).

Definition single_gds_msg : string :=
  "{{IDENTIFYING PROJECT TYPE FAILED}} A single valid GDS was not found. "
  +:+ "If your project is digital, a GDS file should exist under the project's 'gds' directory named 'user_project_wrapper(.gds/.gds.gz)'. "
  +:+ "If your project is analog, a GDS file should exist under the project's 'gds' directory named 'user_analog_project_wrapper(.gds/.gds.gz)'.".

Definition get_project_config (project_path caravel_root : Path)
    : project_result :=
  let project_config : gmap string config_value := ∅ in
  let analog_gds_path :=
    joinpath project_path "gds/user_analog_project_wrapper.gds" in
  let digital_gds_path :=
    joinpath project_path "gds/user_project_wrapper.gds" in
  let openframe_gds_path :=
    joinpath project_path "gds/openframe_project_wrapper.gds" in
  if path_exists analog_gds_path && negb (path_exists digital_gds_path)
     && negb (path_exists openframe_gds_path) then
    let project_config := <["type" := Text "analog"]> project_config in
    let project_config := <["netlist_type" := Text "spice"]> project_config in
    let project_config := <["top_module" := Text "caravan"]> project_config in
    let project_config :=
      <["user_module" := Text "user_analog_project_wrapper"]> project_config in
    let project_config :=
      <["golden_wrapper" := Text "user_analog_project_wrapper_empty"]>
        project_config in
    let project_config :=
      <["top_netlist" := Location (joinpath caravel_root "spi/lvs/caravan.spice")]>
        project_config in
    let project_config :=
      <["user_netlist" :=
          Location (joinpath project_path
                      "netgen/user_analog_project_wrapper.spice")]>
        project_config in
    Config project_config
  else if path_exists digital_gds_path && negb (path_exists analog_gds_path)
          && negb (path_exists openframe_gds_path) then
    let project_config := <["type" := Text "digital"]> project_config in
    let project_config := <["netlist_type" := Text "verilog"]> project_config in
    let project_config := <["top_module" := Text "caravel"]> project_config in
    let project_config :=
      <["user_module" := Text "user_project_wrapper"]> project_config in
    let project_config :=
      <["golden_wrapper" := Text "user_project_wrapper_empty"]> project_config in
    let project_config :=
      <["top_netlist" := Location (joinpath caravel_root "verilog/gl/caravel.v")]>
        project_config in
    let project_config :=
      <["user_netlist" :=
          Location (joinpath project_path "verilog/gl/user_project_wrapper.v")]>
        project_config in
    Config project_config
  else if path_exists openframe_gds_path && negb (path_exists analog_gds_path)
          && negb (path_exists digital_gds_path) then
    let project_config := <["type" := Text "openframe"]> project_config in
    let project_config := <["netlist_type" := Text "verilog"]> project_config in
    let project_config :=
      <["top_module" := Text "caravel_openframe"]> project_config in
    let project_config :=
      <["user_module" := Text "openframe_project_wrapper"]> project_config in
    let project_config :=
      <["golden_wrapper" := Text "openframe_project_wrapper_empty"]>
        project_config in
    let project_config :=
      <["top_netlist" :=
          Location (joinpath caravel_root "verilog/gl/caravel_openframe.v")]>
        project_config in
    let project_config :=
      <["user_netlist" :=
          Location (joinpath project_path
                      "verilog/gl/openframe_project_wrapper.v")]>
        project_config in
    Config project_config
  else SystemExit 254 single_gds_msg.

End ProjectConfig.

Arguments Text {Path} s.
Arguments Location {Path} p.
Arguments Config {Path} project_config.
Arguments SystemExit {Path} code fatal.

(** Paths as strings joined with a slash, and a directory listing. *)
Definition slash (p s : string) : string := p +:+ "/" +:+ s.

Definition listed (files : list string) (p : string) : bool :=
  bool_decide (p ∈ files).

(** ** [is_path], [is_binary_file] and [print_lvs_config] *)

Definition is_path (s : string) : bool :=
  if Py.contains "/" s then true else false.

(** [w in s] for strings. *)
Fixpoint substring_in (w s : string) : bool :=
  match Py.strip_prefix w s with
  | Some _ => true
  | None =>
      match s with
      | EmptyString => false
      | String _ s' => substring_in w s'
      end
  end.

(** [Path(filename).name] on a POSIX path: the last component that is
    neither empty nor [.], or the empty string when there is none. [cur]
    is the component being read, [last] the last one kept. *)
Definition kept (cur last : string) : string :=
  if decide (cur = "" ∨ cur = ".") then last else cur.

Fixpoint final_component (cur last : string) (s : string) : string :=
  match s with
  | EmptyString => kept cur last
  | String c s' =>
      if Ascii.eqb c "/" then final_component "" (kept cur last) s'
      else final_component (cur +:+ String c "") last s'
  end.

Definition Path_name (filename : string) : string :=
  final_component "" "" filename.

(** [name.rpartition('.')]: what stands before and after the last dot. *)
Fixpoint rpartition_dot (name : string) : option (string * string) :=
  match name with
  | EmptyString => None
  | String c name' =>
      match rpartition_dot name' with
      | Some (stem, ext) => Some (String c stem, ext)
      | None => if Ascii.eqb c "." then Some ("", name') else None
      end
  end.

(** [Path(filename).suffix]: from the last dot of the name on, unless the
    dot is the first or the last character. *)
Definition Path_suffix (filename : string) : string :=
  match rpartition_dot (Path_name filename) with
  | Some (String _ _, String c ext) => String "." (String c ext)
  | _ => ""
  end.

Definition is_binary_file (filename : string) : bool :=
  let file_extensions := Path_suffix filename in
  substring_in "gds" file_extensions || substring_in "gz" file_extensions.

Definition is_not_binary_file (filename : string) : bool :=
  negb (is_binary_file filename).

(** Records of [print_lvs_config]: [logging.info] and [logging.warn]. *)
Inductive lvs_record :=
  | LVS_INFO (msg : string)
  | LVS_WARNING (msg : string).

Definition lvs_keys : list string :=
  ["EXTRACT_FLATGLOB"; "EXTRACT_ABSTRACT"; "LVS_FLATTEN"; "LVS_NOFLATTEN";
   "LVS_IGNORE"; "LVS_SPICE_FILES"; "LVS_VERILOG_FILES"; "LAYOUT_FILE"].

Definition missing_lvs_msg (lvs_key : string) : string :=
  "Missing LVS configuration variable " +:+ lvs_key.

Fixpoint for_lvs_key (keys : list string) (be_env : gmap string string)
    : list lvs_record :=
  match keys with
  | [] => []
  | lvs_key :: keys' =>
      match be_env !! lvs_key with
      | Some v => LVS_INFO (lvs_key +:+ " : " +:+ v)
      | None => LVS_WARNING (missing_lvs_msg lvs_key)
      end :: for_lvs_key keys' be_env
  end.

Definition print_lvs_config (be_env : gmap string string) : list lvs_record :=
  for_lvs_key lvs_keys be_env.

(** ** [run_be_check] *)

(** What [run_be_check] logs: the records of [parse_config_file], those of
    [print_lvs_config], and its own warning. *)
Inductive be_record :=
  | Resolve (r : log_record)
  | Dump (r : lvs_record)
  | WARNING (msg : string).

(** [str] of an [int]. *)
Definition str_int (n : Z) : string :=
  DecimalString.NilZero.string_of_int (Z.to_int n).

Definition missing_config_msg (check config_file : string) : string :=
  "ERROR " +:+ check +:+ " FAILED, Could not find LVS configuration file "
  +:+ config_file.

Definition erc_warning_msg (stat : Z) (log_file_path : string) : string :=
  "WARNING ERC CHECK FAILED, stat=" +:+ str_int stat +:+ ", see "
  +:+ log_file_path.

Definition check_failed_msg (check : string) (stat : Z) (log_file_path : string)
    : string :=
  "ERROR " +:+ check +:+ " FAILED, stat=" +:+ str_int stat +:+ ", see "
  +:+ log_file_path.

(** The variables [run_be_check] sets before the configuration is read. *)
Definition initial_be_env
    (design_directory cwd tmp_dir log_path report_path pdk pdk_root
       design_name : string) : gmap string string :=
  let be_env : gmap string string := ∅ in
  let be_env := <["UPRJ_ROOT" := design_directory]> be_env in
  let be_env := <["LVS_ROOT" := cwd +:+ "/checks/be_checks/"]> be_env in
  let be_env := <["WORK_ROOT" := tmp_dir]> be_env in
  let be_env := <["LOG_ROOT" := log_path]> be_env in
  let be_env := <["SIGNOFF_ROOT" := report_path]> be_env in
  let be_env := <["PDK" := pdk]> be_env in
  let be_env := <["PDK_ROOT" := pdk_root]> be_env in
  <["DESIGN_NAME" := design_name]> be_env.

(** [be_script] and [extra_args], bound for the two known checks only. *)
Definition be_script_of (check : string) : option (string * string) :=
  if decide (check = "LVS") then Some ("run_be_checks", "--nooeb")
  else if decide (check = "OEB") then Some ("run_oeb_check", "")
  else None.

Section RunBeCheck.

(** The operating system, as far as the function touches it. A call that
    can raise returns [None] when it does, and the exception propagates:
    [run_be_check] has no handler. The dictionary [be_env] of the source is
    [env] here, [be_env] being the field of the state. *)
Variable world : Type.
Variable isdir : string -> world -> bool.
Variable mkdir : string -> world -> option world.
Variable getcwd : world -> string.
Variable os_path_exists : string -> world -> bool.
Variable read : world -> string -> file.
Variable environ : world -> gmap string string.
Variable open_log : string -> world -> option world.
Variable subprocess_run :
  list string -> gmap string string -> string -> world -> option (Z * world).
Variable rmtree : string -> world -> option world.
Variable recursion_limit : nat.

(** [if not os.path.isdir(p): os.mkdir(p)], for each path in turn. When an
    [os.mkdir] raises, the result is its path and the world reached, with
    the directories made before it. *)
Fixpoint ensure_dirs (paths : list string) (w : world)
    : string * world + world :=
  match paths with
  | [] => inr w
  | p :: paths' =>
      if isdir p w then ensure_dirs paths' w
      else
        match mkdir p w with
        | Some w => ensure_dirs paths' w
        | None => inl (p, w)
        end
  end.

Definition run_be_check
    (design_directory output_directory design_name config_file pdk_root pdk
       check : string) (w : world) : outcome * world * list be_record :=
  let log_path := output_directory +:+ "/logs" in
  let report_path := output_directory +:+ "/outputs/reports" in
  let log_file_path := log_path +:+ "/" +:+ check +:+ "_check.log" in
  let tmp_dir := output_directory +:+ "/tmp" in
  match ensure_dirs [log_path; tmp_dir; output_directory +:+ "/outputs";
                     report_path] w with
  | inl (p, w) => (Raised (OSError p), w, [])
  | inr w =>
      let env :=
        initial_be_env design_directory (getcwd w) tmp_dir log_path report_path
          pdk pdk_root design_name in
      if negb (os_path_exists config_file w) then
        (Returned false, w,
         [Resolve (ERROR (missing_config_msg check config_file))])
      else
        let env := <[INCLUDE_CONFIGS := config_file]> env in
        match parse_config_file recursion_limit (read w) config_file
                (State env []) with
        | (Raised e, st) => (Raised e, w, Resolve <$> log st)
        | (Returned false, st) => (Returned false, w, Resolve <$> log st)
        | (Returned true, st) =>
            match be_script_of check with
            | None =>
                (Raised (UnboundLocalError "be_script"), w, Resolve <$> log st)
            | Some (be_script, extra_args) =>
                let be_cmd :=
                  ["bash"; getcwd w +:+ "/checks/be_checks/" +:+ be_script;
                   extra_args] in
                let records :=
                  (Resolve <$> log st)
                  ++ (Dump <$> print_lvs_config (be_env st)) in
                let env := environ w ∪ be_env st in
                match open_log log_file_path w with
                | None => (Raised (OSError log_file_path), w, records)
                | Some w =>
                    let records :=
                      records
                      ++ [Resolve (INFO ("run: " +:+ be_script));
                          Resolve (INFO (check +:+ " output directory: "
                                         +:+ output_directory))] in
                    match subprocess_run be_cmd env log_file_path w with
                    | None => (Raised (OSError "bash"), w, records)
                    | Some (stat, w) =>
                        if (stat =? 4)%Z then
                          (Returned true, w,
                           records
                           ++ [WARNING (erc_warning_msg stat log_file_path)])
                        else if negb (stat =? 0)%Z then
                          (Returned false, w,
                           records
                           ++ [Resolve (ERROR (check_failed_msg check stat
                                                 log_file_path))])
                        else if isdir tmp_dir w then
                          match rmtree tmp_dir w with
                          | Some w => (Returned true, w, records)
                          | None => (Raised (OSError tmp_dir), w, records)
                          end
                        else (Returned true, w, records)
                    end
                end
            end
        end
  end.

End RunBeCheck.

(** A small operating system to run [run_be_check] on: the world is the
    set of directories, every [mkdir] and [open] succeeds, the files are
    those of a listing, and the script ends with a fixed status. *)
Definition toy_isdir (p : string) (w : gset string) : bool := bool_decide (p ∈ w).
Definition toy_mkdir (p : string) (w : gset string) : option (gset string) :=
  Some ({[ p ]} ∪ w).
Definition toy_rmtree (p : string) (w : gset string) : option (gset string) :=
  Some (w ∖ {[ p ]}).
Definition toy_environ (w : gset string) : gmap string string :=
  {[ "PDK_ROOT" := "/usr/share/pdk" ]}.
Definition toy_files : list (string * json) :=
  [("lvs.json", JObject [("LAYOUT_FILE", JString "$UPRJ_ROOT/gds/top.gds")]);
   ("tech.json", JObject [("TECH_FILE", JString "$PDK_ROOT/sky130A/libs.tech")])].

Definition toy_run_be_check (stat : Z) (config_file check : string)
    : outcome * gset string * list be_record :=
  run_be_check (gset string) toy_isdir toy_mkdir (fun _ => "/opt/precheck")
    (fun p _ => bool_decide (p ∈ toy_files.*1)) (fun _ => disk toy_files)
    toy_environ (fun _ w => Some w) (fun _ _ _ w => Some (stat, w)) toy_rmtree 8
    "/design" "/out" "top" config_file "/pdk" "sky130A" check ∅.

Example word_char_table :
  filter (fun n => Py.word_char (ascii_of_nat n)) (seq 0 256)
  = seq 48 10 ++ seq 65 26 ++ [95] ++ seq 97 26
    ++ [170; 178; 179; 181; 185; 186; 188; 189; 190] ++ seq 192 23
    ++ seq 216 31 ++ seq 248 8.
Proof. vm_compute. reflexivity. Qed.

Example findall_ex :
  Py.findall "$AB$A $ $$C $1_x-$y" = ["$AB"; "$A"; "$C"; "$1_x"; "$y"].
Proof. reflexivity. Qed.

Example split_ex : Py.split "  a  b " = ["a"; "b"].
Proof. reflexivity. Qed.

Example replace1_ex : Py.replace1 "a$X-$X" "$X" "v" = "av-$X".
Proof. reflexivity. Qed.

(** ** Strings *)

#[local] Arguments Ascii.eqb : simpl never.
#[local] Arguments Py.word_char : simpl never.
#[local] Arguments Py.isspace : simpl never.

Lemma string_app_cons c s t : String c s +:+ t = String c (s +:+ t).
Proof. reflexivity. Qed.

Lemma string_app_nil_l t : "" +:+ t = t.
Proof. reflexivity. Qed.

Lemma string_app_nil_r s : s +:+ "" = s.
Proof. induction s as [|c s IH]; [done|]. by rewrite string_app_cons, IH. Qed.

Lemma string_app_assoc s t u : (s +:+ t) +:+ u = s +:+ t +:+ u.
Proof. induction s as [|c s IH]; [done|]. by rewrite !string_app_cons, IH. Qed.

Lemma string_app_inv_head w a b : w +:+ a = w +:+ b → a = b.
Proof.
  induction w as [|c w IH]; [done|].
  rewrite !string_app_cons. intros [= H]. auto.
Qed.

Lemma strip_prefix_Some w s r : Py.strip_prefix w s = Some r ↔ s = w +:+ r.
Proof.
  revert s. induction w as [|a w IH]; intros s; simpl.
  - rewrite string_app_nil_l. split; congruence.
  - rewrite string_app_cons. destruct s as [|b s]; [split; discriminate|].
    destruct (Ascii.eqb_spec a b) as [->|Hne].
    + rewrite IH. split; congruence.
    + split; congruence.
Qed.

Lemma strip_prefix_None w s : Py.strip_prefix w s = None ↔ ∀ r, s ≠ w +:+ r.
Proof.
  split.
  - intros H r Hr. apply strip_prefix_Some in Hr. congruence.
  - intros H. destruct (Py.strip_prefix w s) as [r|] eqn:E; [|done].
    apply strip_prefix_Some in E. by destruct (H r).
Qed.

(** [replace1] rewrites the leftmost occurrence of [w], and only it. *)
Lemma replace1_found s w v p q :
  s = p +:+ w +:+ q →
  (∀ p' q', s = p' +:+ w +:+ q' → String.length p ≤ String.length p') →
  Py.replace1 s w v = p +:+ v +:+ q.
Proof.
  revert p. induction s as [|c s IH]; intros p Hs Hmin.
  - simpl. destruct (Py.strip_prefix w "") as [r|] eqn:E.
    + apply strip_prefix_Some in E.
      specialize (Hmin "" r E). destruct p; [|simpl in Hmin; lia].
      rewrite string_app_nil_l in Hs. rewrite E in Hs.
      apply string_app_inv_head in Hs. by subst.
    + destruct p as [|c p]; [|done].
      rewrite strip_prefix_None in E. by destruct (E q).
  - simpl. destruct (Py.strip_prefix w (String c s)) as [r|] eqn:E.
    + apply strip_prefix_Some in E.
      specialize (Hmin "" r E). destruct p; [|simpl in Hmin; lia].
      rewrite string_app_nil_l in Hs. rewrite E in Hs.
      apply string_app_inv_head in Hs. by subst.
    + rewrite strip_prefix_None in E.
      destruct p as [|c' p]; [by destruct (E q)|].
      rewrite string_app_cons in Hs. injection Hs as -> Hs.
      rewrite string_app_cons. f_equal. apply IH; [done|].
      intros p' q' H'. specialize (Hmin (String c' p') q').
      rewrite string_app_cons, <- H' in Hmin. specialize (Hmin eq_refl).
      simpl in Hmin. lia.
Qed.

Lemma replace1_absent s w v :
  (∀ p q, s ≠ p +:+ w +:+ q) → Py.replace1 s w v = s.
Proof.
  induction s as [|c s IH]; intros H; simpl.
  - destruct (Py.strip_prefix w "") as [r|] eqn:E; [|done].
    apply strip_prefix_Some in E. by destruct (H "" r).
  - destruct (Py.strip_prefix w (String c s)) as [r|] eqn:E.
    + apply strip_prefix_Some in E. by destruct (H "" r).
    + f_equal. apply IH. intros p q Hpq. destruct (H (String c p) q).
      by rewrite string_app_cons, <- Hpq.
Qed.

(** ** Tokens *)

Lemma word_char_dollar : Py.word_char "$" = false.
Proof. reflexivity. Qed.

Lemma word_prefix_all_word s : all_word (Py.word_prefix s) = true.
Proof.
  induction s as [|c s IH]; [done|]. simpl.
  destruct (Py.word_char c) eqn:E; [|done]. simpl. by rewrite E.
Qed.

Lemma word_prefix_split s : ∃ rest, s = Py.word_prefix s +:+ rest.
Proof.
  induction s as [|c s [rest IH]]; [by exists ""|]. simpl.
  destruct (Py.word_char c).
  - exists rest. by rewrite string_app_cons, <- IH.
  - by exists (String c s).
Qed.

(** Every token is a [$], then a non-empty run of word characters, and
    stands in the scanned string. *)
Lemma findall_token s w :
  w ∈ Py.findall s →
  ∃ name, w = String "$" name ∧ name ≠ "" ∧ all_word name = true
          ∧ ∃ p q, s = p +:+ w +:+ q.
Proof.
  induction s as [|c s IH]; simpl; [by intros ?%elem_of_nil|].
  assert (w ∈ Py.findall s →
          ∃ name, w = String "$" name ∧ name ≠ "" ∧ all_word name = true
                  ∧ ∃ p q, String c s = p +:+ w +:+ q) as Hrest.
  { intros (name & -> & ? & ? & p & q & ->)%IH.
    exists name. repeat split; [done..|]. by exists (String c p), q. }
  destruct (Ascii.eqb_spec c "$") as [->|_]; [|done].
  destruct (Py.word_prefix s) as [|a name] eqn:E; [done|].
  intros [->|?]%elem_of_cons; [|auto].
  exists (String a name). repeat split; [done| |].
  - rewrite <- E. apply word_prefix_all_word.
  - destruct (word_prefix_split s) as [rest Hrest'].
    exists "", rest. by rewrite string_app_nil_l, string_app_cons, <- E, <- Hrest'.
Qed.

Lemma findall_no_dollar s : Py.contains "$" s = false → Py.findall s = [].
Proof.
  induction s as [|c s IH]; [done|]. simpl.
  intros [H1 H2]%orb_false_elim. rewrite Ascii.eqb_sym, H1. auto.
Qed.

(** No token is found exactly when no [$] stands before a word character. *)
Lemma findall_nil s :
  Py.findall s = [] ↔
  ∀ p c q, s = p +:+ String "$" (String c q) → Py.word_char c = false.
Proof.
  induction s as [|c s IH]; simpl.
  - split; [|done]. intros _ [|??] ???; done.
  - split.
    + intros H [|c' p] d q Hs.
      * rewrite string_app_nil_l in Hs. injection Hs as -> ->.
        simpl in H. by destruct (Py.word_char d).
      * rewrite string_app_cons in Hs. injection Hs as -> ->.
        assert (Py.findall (p +:+ String "$" (String d q)) = []) as H'.
        { destruct (Ascii.eqb c' "$"); [|done].
          by destruct (Py.word_prefix (p +:+ String "$" (String d q))). }
        eapply IH; done.
    + intros H.
      assert (Py.findall s = []) as Hs.
      { apply IH. intros p d q ->. apply (H (String c p) d q).
        by rewrite string_app_cons. }
      rewrite Hs. destruct (Ascii.eqb_spec c "$") as [->|_]; [|done].
      destruct s as [|d s]; [done|]. simpl.
      by rewrite (H "" d s eq_refl).
Qed.

(** ** [substitute_env_variables] *)

(** The guard [if "$" in string] changes nothing: without a [$] there is
    no token. *)
Lemma substitute_env_variables_for_w s env :
  substitute_env_variables s env = for_w (Py.findall s) s env.
Proof.
  unfold substitute_env_variables.
  destruct (Py.contains "$" s) eqn:E; [done|].
  by rewrite findall_no_dollar.
Qed.

Lemma for_w_present words s env :
  Forall (fun w => is_Some (env !! Py.tail w)) words →
  for_w words s env = (Some (replace_each env words s), []).
Proof.
  intros H. revert s. induction H as [|w words [x Hx] _ IH]; intros s; [done|].
  simpl. rewrite Hx. apply IH.
Qed.

Lemma for_w_missing pre w post s env :
  Forall (fun w => is_Some (env !! Py.tail w)) pre →
  env !! Py.tail w = None →
  for_w (pre ++ w :: post) s env = (None, [ERROR (missing_variable_msg w)]).
Proof.
  intros H Hw. revert s. induction H as [|w' pre [x Hx] _ IH]; intros s; simpl.
  - by rewrite Hw.
  - rewrite Hx. apply IH.
Qed.

Lemma for_w_agree words s env env' :
  (∀ w, w ∈ words → env !! Py.tail w = env' !! Py.tail w) →
  for_w words s env = for_w words s env'.
Proof.
  revert s. induction words as [|w words IH]; intros s H; [done|]. simpl.
  rewrite <- (H w) by apply list_elem_of_here.
  destruct (env !! Py.tail w); [|done].
  apply IH. intros w' ?. apply H. by apply list_elem_of_further.
Qed.

Lemma for_w_result words s env :
  (Forall (fun w => is_Some (env !! Py.tail w)) words
   ∧ for_w words s env = (Some (replace_each env words s), []))
  ∨ (∃ pre w post,
       words = pre ++ w :: post
       ∧ Forall (fun w => is_Some (env !! Py.tail w)) pre
       ∧ env !! Py.tail w = None
       ∧ for_w words s env = (None, [ERROR (missing_variable_msg w)])).
Proof.
  destruct (decide (Forall (fun w => is_Some (env !! Py.tail w)) words))
    as [H|H].
  - left. split; [done|]. by apply for_w_present.
  - right. apply not_Forall_Exists in H; [|apply _].
    induction H as [w post Hw|w' words H IH].
    + exists [], w, post. repeat split; [constructor| |].
      * by apply eq_None_not_Some.
      * apply (for_w_missing []); [constructor|]. by apply eq_None_not_Some.
    + destruct (env !! Py.tail w') as [x|] eqn:E.
      * destruct IH as (pre & w & post & -> & Hpre & Hw & _).
        exists (w' :: pre), w, post. repeat split; [|done|].
        -- constructor; eauto.
        -- apply (for_w_missing (w' :: pre)); [constructor; eauto|done].
      * exists [], w', words. repeat split; [constructor|done|].
        by apply (for_w_missing []).
Qed.

(** ** The scan is left to right *)

Lemma word_prefix_app name rest :
  all_word name = true → Py.word_prefix rest = "" →
  Py.word_prefix (name +:+ rest) = name.
Proof.
  intros Hn Hr. induction name as [|c name IH]; [done|].
  simpl in Hn. apply andb_prop in Hn as [Hc Hn].
  rewrite string_app_cons. simpl. rewrite Hc. f_equal. auto.
Qed.

Lemma findall_skip_word name rest :
  all_word name = true → Py.findall (name +:+ rest) = Py.findall rest.
Proof.
  intros Hn. induction name as [|c name IH]; [done|].
  simpl in Hn. apply andb_prop in Hn as [Hc Hn].
  rewrite string_app_cons. simpl.
  destruct (Ascii.eqb_spec c "$") as [->|_]; [|auto].
  by rewrite word_char_dollar in Hc.
Qed.

Lemma findall_skip_plain p t :
  Py.findall p = [] → Py.word_prefix t = "" →
  Py.findall (p +:+ t) = Py.findall t.
Proof.
  intros Hp Ht. induction p as [|c p IH]; [done|].
  rewrite string_app_cons. simpl in *.
  destruct (Ascii.eqb c "$").
  - destruct (Py.word_prefix p) as [|a name] eqn:E; [|done].
    assert (Py.word_prefix (p +:+ t) = "") as ->; [|auto].
    destruct p as [|d p]; [done|]. rewrite string_app_cons. simpl in *.
    by destruct (Py.word_char d).
  - auto.
Qed.

Lemma findall_next p name rest :
  Py.findall p = [] → name ≠ "" → all_word name = true →
  Py.word_prefix rest = "" →
  Py.findall (p +:+ String "$" (name +:+ rest))
  = String "$" name :: Py.findall rest.
Proof.
  intros Hp Hne Hn Hr.
  rewrite findall_skip_plain; [|done|].
  - simpl. rewrite word_prefix_app by done.
    rewrite findall_skip_word by done. by destruct name.
  - reflexivity.
Qed.

(** C2. [substitute_env_variables] scans the string from left to right
    for the tokens [$] + word characters: every token found has that shape
    and stands in the string, and the first token after a token-free
    prefix heads the list. Then either every token's name is in the
    environment and the result is the string after one [replace] of the
    leftmost remaining occurrence per token occurrence, with nothing
    logged; or some token's name is absent and the call returns [None]
    (not a string, so not the empty string either) with one error record,
    whose text ends with the first such token. *)
Theorem substitute_env_variables_scan (s : string) (env : gmap string string) :
  let words := Py.findall s in
  (∀ w, w ∈ words →
     ∃ name, w = String "$" name ∧ name ≠ "" ∧ all_word name = true
             ∧ ∃ p q, s = p +:+ w +:+ q)
  ∧ (∀ p name rest,
       s = p +:+ String "$" (name +:+ rest) →
       Py.findall p = [] → name ≠ "" → all_word name = true →
       Py.word_prefix rest = "" →
       words = String "$" name :: Py.findall rest)
  ∧ (∀ t w x p q,
       t = p +:+ w +:+ q →
       (∀ p' q', t = p' +:+ w +:+ q' → String.length p ≤ String.length p') →
       Py.replace1 t w x = p +:+ x +:+ q)
  ∧ ((Forall (fun w => is_Some (env !! Py.tail w)) words
      ∧ substitute_env_variables s env = (Some (replace_each env words s), []))
     ∨ (∃ pre w post,
          words = pre ++ w :: post
          ∧ Forall (fun w => is_Some (env !! Py.tail w)) pre
          ∧ env !! Py.tail w = None
          ∧ substitute_env_variables s env
            = (None,
               [ERROR ("ERROR LVS FAILED, couldn't find environment variable "
                       +:+ w)]))).
Proof.
  intros words. split; [|split; [|split]].
  - intros w. apply findall_token.
  - intros p name rest -> ????. by apply findall_next.
  - intros t w x p q. apply replace1_found.
  - rewrite substitute_env_variables_for_w.
    destruct (for_w_result words s env)
      as [H|(pre & w & post & Hw & Hpre & Habs & Hrun)]; [by left|].
    right. exists pre, w, post. repeat split; [done..|].
    exact Hrun.
Qed.

Lemma substitute_env_variables_scan_witness :
  substitute_env_variables "$PDK_ROOT/$PDK/$PDK"
    (<["PDK_ROOT" := "/pdk"]> (<["PDK" := "sky"]> ∅))
  = (Some "/pdk/sky/sky", [])
  ∧ substitute_env_variables "$PDK_ROOT/$PDK/$TOP" (<["PDK_ROOT" := "/pdk"]> ∅)
    = (None,
       [ERROR "ERROR LVS FAILED, couldn't find environment variable $PDK"])
  ∧ Py.findall "lib $PDK_ROOT/x" = ["$PDK_ROOT"]
  ∧ Py.replace1 "a-b-c" "-" "+" = "a+b-c".
Proof.
  split; [|split; [|split]].
  - destruct (substitute_env_variables_scan "$PDK_ROOT/$PDK/$PDK"
        (<["PDK_ROOT" := "/pdk"]> (<["PDK" := "sky"]> ∅)))
      as (_ & _ & _ & [[_ ->]|(pre & w & post & _ & _ & _ & H)]).
    + reflexivity.
    + vm_compute in H. discriminate H.
  - assert (substitute_env_variables "$PDK_ROOT/$PDK/$TOP"
              (<["PDK_ROOT" := "/pdk"]> ∅)
            = (None,
               [ERROR ("ERROR LVS FAILED, couldn't find environment variable "
                       +:+ "$PDK")])) as E by (vm_compute; reflexivity).
    destruct (substitute_env_variables_scan "$PDK_ROOT/$PDK/$TOP"
        (<["PDK_ROOT" := "/pdk"]> ∅))
      as (_ & _ & _ & [[_ H]|(pre & w & post & _ & _ & _ & H)]).
    + rewrite H in E. discriminate E.
    + rewrite H. rewrite H in E. injection E as E.
      apply string_app_inv_head in E. by rewrite E.
  - destruct (substitute_env_variables_scan "lib $PDK_ROOT/x" ∅)
      as (_ & H & _).
    apply (H "lib " "PDK_ROOT" "/x"); [reflexivity..|discriminate|reflexivity|reflexivity].
  - destruct (substitute_env_variables_scan "" ∅) as (_ & _ & H & _).
    apply (H "a-b-c" "-" "+" "a" "b-c"); [reflexivity|].
    intros [|c p'] q' E; [discriminate E|simpl; lia].
Defined.

(** C10, as stated, fails: a replacement value is substituted again when
    its token also stands in the input, and a lone [$] is consumed when a
    replacement value puts a word behind it. In both inputs the text put
    in place is rewritten and the token of the input itself is left. *)
Lemma resubstitution_counterexample :
  let env := <["A" := "$B"]> (<["B" := "x"]> (∅ : gmap string string)) in
  let env' := <["A" := "B"]> (<["B" := "x"]> (∅ : gmap string string)) in
  substitute_env_variables "$A $B" env = (Some "x $B", [])
  ∧ substitute_in_place env "$A $B" = "$B x"
  ∧ substitute_env_variables "$$A $B" env' = (Some "x $B", [])
  ∧ substitute_in_place env' "$$A $B" = "$B x"
  ∧ ¬ (∀ s e, (substitute_env_variables s e).1 = Some (substitute_in_place e s)).
Proof.
  intros env env'. repeat split; try reflexivity.
  intros H. specialize (H "$A $B" env). vm_compute in H. discriminate H.
Qed.

(** C10, amended. Success or failure is decided by the tokens of the
    input alone: the call succeeds exactly when every one of them is
    defined, so a token that only a replacement value brings in is never
    looked up, and two environments that agree on the input's tokens give
    the same result. A string in which no [$] stands before a word
    character has no token, and comes back unchanged whatever the
    environment. *)
Theorem substitute_env_variables_tokens_once (s : string)
    (env : gmap string string) :
  ((∃ v, substitute_env_variables s env = (Some v, []))
   ↔ Forall (fun w => is_Some (env !! Py.tail w)) (Py.findall s))
  ∧ (∀ env' : gmap string string,
       (∀ w, w ∈ Py.findall s → env !! Py.tail w = env' !! Py.tail w) →
       substitute_env_variables s env = substitute_env_variables s env')
  ∧ ((∀ p c q, s = p +:+ String "$" (String c q) → Py.word_char c = false) →
     Py.findall s = [] ∧ substitute_env_variables s env = (Some s, [])).
Proof.
  rewrite substitute_env_variables_for_w. split; [|split].
  - split.
    + intros [v Hv].
      destruct (for_w_result (Py.findall s) s env)
        as [[H _]|(pre & w & post & _ & _ & _ & H)]; [done|congruence].
    + intros H. rewrite for_w_present by done. eauto.
  - intros env' H. rewrite substitute_env_variables_for_w.
    by apply for_w_agree.
  - intros H%findall_nil. by rewrite H.
Qed.

Lemma substitute_env_variables_tokens_once_witness :
  substitute_env_variables "make $ 5$ -j$$" ∅ = (Some "make $ 5$ -j$$", [])
  ∧ substitute_env_variables "$A/b" (<["A" := "$B"]> ∅)
    = substitute_env_variables "$A/b" (<["A" := "$B"]> (<["B" := "x"]> ∅)).
Proof.
  split.
  - apply (substitute_env_variables_tokens_once "make $ 5$ -j$$" ∅).
    apply findall_nil. reflexivity.
  - apply (substitute_env_variables_tokens_once "$A/b" (<["A" := "$B"]> ∅)).
    intros w Hw. vm_compute in Hw. apply list_elem_of_singleton in Hw as ->.
    reflexivity.
Defined.

(** ** The activation *)

Lemma parse_config_file_unfold depth fs json_file st :
  parse_config_file depth fs json_file st
  = frame fs (nested_call depth fs) json_file st.
Proof. by destruct depth. Qed.

Section FrameFacts.

Variable fs : string -> file.
Variable call : string -> state -> outcome * state.

Lemma for_val_app key pre rest exports val st :
  for_val call key (pre ++ rest) exports val st
  = match for_val call key pre exports val st with
    | Next (exports', val') st' => for_val call key rest exports' val' st'
    | Return b st' => Return b st'
    | Raise e st' => Raise e st'
    end.
Proof.
  revert exports val st.
  induction pre as [|elt pre IH]; intros exports val st; [done|].
  simpl. destruct elt; try done.
  destruct (is_valid s); [|done].
  destruct (substitute_env_variables s (be_env st)) as [[v|] msgs]; [|done].
  destruct (decide (v ∈ exports)); [apply IH|].
  destruct (decide (key = INCLUDE_CONFIGS)); [|apply IH].
  destruct (be_env st !! INCLUDE_CONFIGS); [|done].
  destruct (call v _) as [[[|]|err] st']; [apply IH|done..].
Qed.

Lemma for_items_app before rest val st :
  for_items call (before ++ rest) val st
  = match for_items call before val st with
    | Next val' st' => for_items call rest val' st'
    | Return b st' => Return b st'
    | Raise e st' => Raise e st'
    end.
Proof.
  revert val st. induction before as [|[key value] before IH]; intros val st; [done|].
  simpl. destruct (for_item call key value val st); [apply IH|done..].
Qed.

(** A call whose loop reaches an item at which the round returns or
    raises ends there. *)
Lemma frame_return json_file st before key value after val1 st1 b st2 :
  fs json_file = Parsed (JObject (before ++ (key, value) :: after)) →
  for_items call before None (entered json_file st) = Next val1 st1 →
  for_item call key value val1 st1 = Return b st2 →
  frame fs call json_file st = (Returned b, st2).
Proof.
  intros Hfs Hbefore Hitem. unfold frame, try_body. rewrite Hfs.
  rewrite for_items_app. unfold entered in Hbefore. rewrite Hbefore.
  simpl. by rewrite Hitem.
Qed.


(** The loop over a list whose key is not [INCLUDE_CONFIGS] makes no
    nested call and writes nothing: when it runs to its end the state is
    the one it started in. *)
Lemma for_val_plain_next key elts exports val st exports' val' st' :
  key ≠ INCLUDE_CONFIGS →
  for_val call key elts exports val st = Next (exports', val') st' →
  st' = st.
Proof.
  intros Hkey. revert exports val.
  induction elts as [|elt elts IH]; intros exports val; simpl.
  - by intros [= _ _ ->].
  - destruct elt; try done.
    destruct (is_valid s); [|done].
    destruct (substitute_env_variables s (be_env st)) as [[v|] msgs]; [|done].
    destruct (decide (v ∈ exports)); [apply IH|].
    destruct (decide (key = INCLUDE_CONFIGS)); [done|apply IH].
Qed.

End FrameFacts.

(** ** Files that cannot be loaded *)

(** C7. When the path cannot be opened, its contents do not decode, or
    the decoded value is not an object, the call returns [false] and
    leaves the environment as it was on entry. What it logs is the line of
    the entry and the three records of the handler: the type of the
    exception that the cause raised ([OSError] for the path, [ValueError]
    of the decoder, [AttributeError] for [items]), its arguments, and
    [Error with file] followed by the path. *)
Theorem parse_config_file_unparsable (depth : nat) (fs : string -> file)
    (json_file : string) (st : state) :
  (fs json_file = Unreadable →
   parse_config_file depth fs json_file st
   = (Returned false,
      State (be_env st)
        (log st ++ [INFO ("Loading LVS environment from " +:+ json_file);
                    ERROR_type (OSError json_file); ERROR_args (OSError json_file);
                    ERROR ("Error with file " +:+ json_file)])))
  ∧ (fs json_file = Malformed →
     parse_config_file depth fs json_file st
     = (Returned false,
        State (be_env st)
          (log st ++ [INFO ("Loading LVS environment from " +:+ json_file);
                      ERROR_type (ValueError); ERROR_args (ValueError);
                      ERROR ("Error with file " +:+ json_file)])))
  ∧ (∀ data, fs json_file = Parsed data → (∀ items, data ≠ JObject items) →
     parse_config_file depth fs json_file st
     = (Returned false,
        State (be_env st)
          (log st ++ [INFO ("Loading LVS environment from " +:+ json_file);
                      ERROR_type (AttributeError "items"); ERROR_args (AttributeError "items");
                      ERROR ("Error with file " +:+ json_file)]))).
Proof.
  rewrite parse_config_file_unfold. unfold frame, try_body.
  split; [|split].
  - intros ->. unfold logging_all, logging. simpl. by rewrite <- app_assoc.
  - intros ->. unfold logging_all, logging. simpl. by rewrite <- app_assoc.
  - intros data -> Hdata. unfold logging_all, logging.
    destruct data; simpl; try by rewrite <- app_assoc.
    by destruct (Hdata items).
Qed.

Lemma parse_config_file_unparsable_witness :
  let fs := disk [("cfg", JArray [JString "x"])] in
  parse_config_file 1 fs "cfg" (seed "cfg")
  = (Returned false,
     State {[ INCLUDE_CONFIGS := "cfg" ]}
       [INFO "Loading LVS environment from cfg";
        ERROR_type (AttributeError "items");
        ERROR_args (AttributeError "items");
        ERROR "Error with file cfg"])
  ∧ parse_config_file 1 fs "missing" (seed "cfg")
    = (Returned false,
       State {[ INCLUDE_CONFIGS := "cfg" ]}
         [INFO "Loading LVS environment from missing";
          ERROR_type (OSError "missing");
          ERROR_args (OSError "missing");
          ERROR "Error with file missing"]).
Proof.
  intros fs. split.
  - destruct (parse_config_file_unparsable 1 fs "cfg" (seed "cfg"))
      as (_ & _ & H).
    apply (H (JArray [JString "x"])); [reflexivity|discriminate].
  - destruct (parse_config_file_unparsable 1 fs "missing" (seed "cfg"))
      as (H & _).
    apply H. reflexivity.
Defined.

(** ** Exceptions that leave a call *)

Lemma stack_parse_config_file_unfold need room fs json_file st :
  Stack.parse_config_file need room fs json_file st
  = Stack.frame need fs (Stack.nested_call need room fs) room json_file st.
Proof. by destruct room. Qed.

Lemma stack_emit_fits need room r st :
  need r ≤ room → Stack.emit need room r st = Some (logging r st).
Proof. intros H. unfold Stack.emit. by rewrite decide_True. Qed.

Lemma stack_emit_raises need room r st :
  Stack.emit need room r st = None → room < need r.
Proof. unfold Stack.emit. destruct (decide (need r ≤ room)); [done|lia]. Qed.

Lemma logging_all_cons r rs st :
  logging_all (r :: rs) st = logging_all rs (logging r st).
Proof. unfold logging_all, logging. simpl. by rewrite <- app_assoc. Qed.

Lemma stack_emit_all_fits need room rs st :
  Forall (fun r => need r ≤ room) rs →
  Stack.emit_all need room rs st = (true, logging_all rs st).
Proof.
  intros H. revert st. induction H as [|r rs Hr _ IH]; intros st.
  - destruct st as [env l]. unfold logging_all. simpl. by rewrite app_nil_r.
  - cbn [Stack.emit_all]. rewrite stack_emit_fits by done.
    by rewrite IH, logging_all_cons.
Qed.

Lemma stack_emit_all_raises need room rs st st' :
  Stack.emit_all need room rs st = (false, st') →
  Exists (fun r => room < need r) rs.
Proof.
  revert st. induction rs as [|r rs IH]; intros st; [done|].
  cbn [Stack.emit_all]. destruct (Stack.emit need room r st) as [st1|] eqn:E.
  - intros H. apply Exists_cons_tl. by eapply IH.
  - intros _. apply Exists_cons_hd. by eapply stack_emit_raises.
Qed.

(** When logging takes no frames the stack is charged for nested loads
    only, and the definitions of [Stack] are the ones used elsewhere. *)
Section Free.

Variable call : string -> state -> outcome * state.
Variable room : nat.

Lemma stack_emit_all_free rs st :
  Stack.emit_all (uniform 0) room rs st = (true, logging_all rs st).
Proof.
  apply stack_emit_all_fits, Forall_forall. intros r _. unfold uniform. lia.
Qed.

Lemma stack_for_val_free key elts exports val st :
  Stack.for_val (uniform 0) call room key elts exports val st
  = for_val call key elts exports val st.
Proof.
  revert exports val st.
  induction elts as [|elt elts IH]; intros exports val st; [done|].
  cbn [Stack.for_val for_val]. destruct elt as [| | |s| |]; try done.
  destruct (is_valid s).
  - destruct (substitute_env_variables s (be_env st)) as [[v|] msgs].
    + destruct (decide (v ∈ exports)); [apply IH|].
      destruct (decide (key = INCLUDE_CONFIGS)); [|apply IH].
      destruct (be_env st !! INCLUDE_CONFIGS); [|done].
      destruct (call v _) as [[[|]|err] st']; [apply IH|done..].
    + by rewrite stack_emit_all_free.
  - rewrite stack_emit_fits; [done|]. unfold uniform. lia.
Qed.

Lemma stack_for_item_free key value val st :
  Stack.for_item (uniform 0) call room key value val st
  = for_item call key value val st.
Proof.
  destruct value as [| | |s|elts|]; try done;
    cbn [Stack.for_item for_item].
  - destruct (is_valid s).
    + destruct (substitute_env_variables s (be_env st)) as [[v|] msgs]; [done|].
      by rewrite stack_emit_all_free.
    + destruct val as [x|]; [|done].
      rewrite stack_emit_fits; [done|]. unfold uniform. lia.
  - by rewrite stack_for_val_free.
Qed.

Lemma stack_for_items_free items val st :
  Stack.for_items (uniform 0) call room items val st
  = for_items call items val st.
Proof.
  revert val st. induction items as [|[key value] items IH]; intros val st; [done|].
  cbn [Stack.for_items for_items]. rewrite stack_for_item_free.
  destruct (for_item call key value val st); [apply IH|done..].
Qed.

Lemma stack_frame_free fs json_file st :
  Stack.frame (uniform 0) fs call room json_file st
  = frame fs call json_file st.
Proof.
  unfold Stack.frame, frame, Stack.try_body, try_body.
  rewrite stack_emit_fits by (unfold uniform; lia).
  destruct (fs json_file) as [| |data];
    [by rewrite stack_emit_all_free..|].
  destruct data; try by rewrite stack_emit_all_free.
  rewrite stack_for_items_free.
  destruct (for_items call items None _); [done..|].
  by rewrite stack_emit_all_free.
Qed.

End Free.

Lemma stack_frame_ext need fs call call' room json_file st :
  (∀ child st1, call child st1 = call' child st1) →
  Stack.frame need fs call room json_file st
  = Stack.frame need fs call' room json_file st.
Proof.
  intros Hcall.
  assert (∀ key elts exports val st1,
            Stack.for_val need call room key elts exports val st1
            = Stack.for_val need call' room key elts exports val st1) as Hval.
  { intros key elts. induction elts as [|elt elts IH]; intros exports val st1;
      [done|].
    cbn [Stack.for_val]. destruct elt as [| | |s| |]; try done.
    destruct (is_valid s); [|done].
    destruct (substitute_env_variables s (be_env st1)) as [[v|] msgs]; [|done].
    destruct (decide (v ∈ exports)); [apply IH|].
    destruct (decide (key = INCLUDE_CONFIGS)); [|apply IH].
    destruct (be_env st1 !! INCLUDE_CONFIGS); [|done].
    rewrite Hcall. destruct (call' v _) as [[[|]|err] st']; [apply IH|done..]. }
  assert (∀ items val st1,
            Stack.for_items need call room items val st1
            = Stack.for_items need call' room items val st1) as Hitems.
  { induction items as [|[key value] items IH]; intros val st1; [done|].
    cbn [Stack.for_items].
    assert (Stack.for_item need call room key value val st1
            = Stack.for_item need call' room key value val st1) as ->.
    { destruct value; try done. cbn [Stack.for_item]. by rewrite Hval. }
    destruct (Stack.for_item need call' room key value val st1);
      [apply IH|done..]. }
  unfold Stack.frame, Stack.try_body.
  destruct (Stack.emit need room _ st); [|done].
  destruct (fs json_file) as [| |data]; [done..|].
  destruct data; try done. by rewrite Hitems.
Qed.

Lemma stack_parse_config_file_free depth fs json_file st :
  Stack.parse_config_file (uniform 0) depth fs json_file st
  = parse_config_file depth fs json_file st.
Proof.
  revert json_file st. induction depth as [|depth IH]; intros json_file st.
  - rewrite stack_parse_config_file_unfold, parse_config_file_unfold.
    by rewrite stack_frame_free.
  - rewrite stack_parse_config_file_unfold, parse_config_file_unfold.
    rewrite <- stack_frame_free with (room := S depth).
    apply stack_frame_ext. intros child st1. apply IH.
Qed.

(** C9, as stated, fails: [logging.info] stands before the [try], and the
    handler logs without protection. With one frame needed by a logging
    call and none left, the call raises [RecursionError] at its first
    line. With room for the other records but not for the handler's
    first, a file that cannot be opened sends the [RecursionError] of the
    handler to the caller; the line of the entry is all that was logged. *)
Lemma parse_config_file_raises :
  Stack.parse_config_file (uniform 1) 0 parent_child "top" (seed "top")
  = (Raised RecursionError, seed "top")
  ∧ Stack.parse_config_file (deeper_handler 1) 1 parent_child "missing"
      (seed "top")
    = (Raised RecursionError,
       State {[ INCLUDE_CONFIGS := "top" ]}
         [INFO "Loading LVS environment from missing"])
  ∧ ¬ (∀ need room fs json_file st,
         ∃ b st',
           Stack.parse_config_file need room fs json_file st = (Returned b, st')).
Proof.
  split; [vm_compute; reflexivity|]. split; [vm_compute; reflexivity|].
  intros H.
  destruct (H (uniform 1) 0 parent_child "top" (seed "top")) as (b & st' & E).
  vm_compute in E. discriminate E.
Qed.

(** C9, amended. A call whose own logging fits on the stack, the line of
    the entry and the three records of the handler, returns a boolean:
    whatever is raised in the [try] block, by the call itself or by a
    nested load (the [RecursionError] of a nested call that has no room
    for its logging included), is logged by the handler and turned into
    [false]. The only exception that leaves a call is the
    [RecursionError] of one of these four logging calls. *)
Theorem parse_config_file_total (need : log_record -> nat) (room : nat)
    (fs : string -> file) (json_file : string) (st : state) :
  let body :=
    Stack.try_body need fs (Stack.nested_call need room fs) room json_file
      (entered json_file st) in
  (need (INFO ("Loading LVS environment from " +:+ json_file)) ≤ room →
   (∀ err, need (ERROR_type err) ≤ room ∧ need (ERROR_args err) ≤ room) →
   need (ERROR ("Error with file " +:+ json_file)) ≤ room →
   ∃ b st',
     Stack.parse_config_file need room fs json_file st = (Returned b, st')
     ∧ (∀ err st1,
          body = Raise err st1 →
          b = false
          ∧ st' = State (be_env st1)
                    (log st1 ++ [ERROR_type err; ERROR_args err;
                                 ERROR ("Error with file " +:+ json_file)])))
  ∧ (∀ e st',
       Stack.parse_config_file need room fs json_file st = (Raised e, st') →
       e = RecursionError
       ∧ (room < need (INFO ("Loading LVS environment from " +:+ json_file))
          ∨ ∃ err st1,
              body = Raise err st1
              ∧ (room < need (ERROR_type err) ∨ room < need (ERROR_args err)
                 ∨ room < need (ERROR ("Error with file " +:+ json_file))))).
Proof.
  intros body. rewrite stack_parse_config_file_unfold. unfold Stack.frame.
  split.
  - intros Hinfo Herr Hfile.
    rewrite (stack_emit_fits need room (INFO (loading_msg json_file))) by done.
    fold (entered json_file st). fold body. clearbody body.
    destruct body as [u st1|b st1|err st1].
    + exists true, st1. by split.
    + exists b, st1. by split.
    + rewrite stack_emit_all_fits.
      * exists false, (logging_all (except_log err json_file) st1).
        split; [done|]. by intros err' st1' [= <- <-].
      * destruct (Herr err) as [Htype Hargs].
        repeat constructor; done.
  - intros e st'.
    destruct (Stack.emit need room (INFO (loading_msg json_file)) st)
      as [st0|] eqn:Hentry.
    + assert (st0 = entered json_file st) as ->.
      { unfold Stack.emit in Hentry.
        destruct (decide _) in Hentry; [|done]. by injection Hentry as <-. }
      fold body. clearbody body.
      destruct body as [u st1|b st1|err st1]; [done..|].
      destruct (Stack.emit_all need room (except_log err json_file) st1)
        as [[|] st2] eqn:Hhandler; [done|].
      intros [= <- <-]. split; [done|]. right. exists err, st1.
      split; [done|].
      apply stack_emit_all_raises in Hhandler.
      apply Exists_cons in Hhandler as [?|Hhandler]; [by left|].
      apply Exists_cons in Hhandler as [?|Hhandler]; [by right; left|].
      apply Exists_cons in Hhandler as [?|Hhandler]; [by right; right|].
      by apply Exists_nil in Hhandler.
    + intros [= <- <-]. split; [done|]. left.
      by apply stack_emit_raises in Hentry.
Qed.

Lemma parse_config_file_total_witness :
  Stack.parse_config_file (uniform 1) 1 parent_child "top" (seed "top")
  = (Returned false,
     State {[ INCLUDE_CONFIGS := "top child" ]}
       [INFO "Loading LVS environment from top";
        ERROR_type RecursionError; ERROR_args RecursionError;
        ERROR "Error with file top"]).
Proof.
  destruct (parse_config_file_total (uniform 1) 1 parent_child "top"
              (seed "top")) as [Hreturns _].
  destruct Hreturns as (b & st' & -> & Hcaught).
  - unfold uniform. lia.
  - intros err. unfold uniform. lia.
  - unfold uniform. lia.
  - destruct (Hcaught RecursionError
                (setitem INCLUDE_CONFIGS "top child" (entered "top" (seed "top"))))
      as [-> ->].
    + vm_compute. reflexivity.
    + vm_compute. reflexivity.
Defined.

(** ** Includes reached over two ways *)

(** C1. The guard against loading a file twice compares with the list
    [exports] that the including call split off when it met the key, not
    with what nested loads have recorded since. In the diamond [D] is
    loaded once; when [A] includes [B] and [D], and [B] includes [D], the
    call for [A] still holds its old list after [B] returns and loads [D] a
    second time. A stack for two nested calls is enough in both. *)
Theorem shortcut_loads_twice (depth : nat) :
  let once := parse_config_file (2 + depth) diamond "A" (seed "A") in
  let twice := parse_config_file (2 + depth) shortcut "A" (seed "A") in
  once.1 = Returned true ∧ loads "D" once.2 = 1
  ∧ twice.1 = Returned true ∧ loads "D" twice.2 = 2
  ∧ be_env twice.2 !! INCLUDE_CONFIGS = Some "A B D D".
Proof. destruct depth; vm_compute; done. Qed.

(** ** A scalar that is an absolute path *)

(** C8. The scalar branch reports [val], the variable of the list loop,
    where the list branch reports the offending element. A scalar
    beginning with [/] therefore ends the call with [false] and without a
    write, but the log never names it: with no list before it [val] is
    unbound and the handler logs an [UnboundLocalError]; after a list the
    record names the last element of that list. *)
Theorem absolute_scalar_not_named (depth : nat) :
  let alone := parse_config_file depth absolute_scalar "cfg" (seed "cfg") in
  let after := parse_config_file depth absolute_scalar_after_list "cfg"
                 (seed "cfg") in
  alone.1 = Returned false
  ∧ be_env alone.2 !! "LAYOUT_FILE" = None
  ∧ log alone.2 = INFO (loading_msg "cfg")
                  :: except_log (UnboundLocalError "val") "cfg"
  ∧ after.1 = Returned false
  ∧ be_env after.2 !! "LAYOUT_FILE" = None
  ∧ log after.2 = [INFO (loading_msg "cfg"); ERROR (absolute_path_msg "cell")]
  ∧ Forall (fun r => r ≠ ERROR (absolute_path_msg "/abs/top.gds"))
      (log alone.2 ++ log after.2).
Proof.
  destruct depth; vm_compute; repeat split; try done;
    repeat (constructor; [discriminate|]); constructor.
Qed.

(** ** Values of a document *)

Lemma substitute_resolvable env s :
  Forall (fun w => is_Some (env !! Py.tail w)) (Py.findall s) →
  substitute_env_variables s env = (Some (substituted env s), []).
Proof.
  intros H. rewrite substitute_env_variables_for_w. by apply for_w_present.
Qed.

Lemma substitute_dangling env s :
  Exists (fun w => env !! Py.tail w = None) (Py.findall s) →
  ∃ w, w ∈ Py.findall s ∧ env !! Py.tail w = None
       ∧ substitute_env_variables s env
         = (None, [ERROR (missing_variable_msg w)]).
Proof.
  intros H. rewrite substitute_env_variables_for_w.
  destruct (for_w_result (Py.findall s) s env)
    as [[Hall _]|(pre & w & post & Hw & _ & Habs & ->)].
  - apply Exists_exists in H as (w & Hin & Hw).
    rewrite Forall_forall in Hall. destruct (Hall w Hin) as [x Hx]. congruence.
  - exists w. repeat split; [|done]. rewrite Hw. set_solver.
Qed.




(** ** References to undefined variables *)

(** C4, as stated, fails for the key [INCLUDE_CONFIGS]: each include is
    recorded under that key before it is loaded, so when a later element of
    the list names an undefined variable the key has been written. *)
Lemma include_list_partial_write :
  let r := parse_config_file 1 partial_include "top" (seed "top") in
  r.1 = Returned false
  ∧ be_env (seed "top") !! INCLUDE_CONFIGS = Some "top"
  ∧ be_env r.2 !! INCLUDE_CONFIGS = Some "top child"
  ∧ be_env r.2 !! INCLUDE_CONFIGS ≠ be_env (seed "top") !! INCLUDE_CONFIGS
  ∧ log r.2 = [INFO (loading_msg "top"); INFO (loading_msg "child");
               ERROR (missing_variable_msg "$UNDEFINED")].
Proof. vm_compute. repeat split; done. Qed.

(** C4, amended. When the loop meets a value that passes [is_valid] and
    holds a token whose name the environment lacks at that time, the call
    logs the error that ends with such a token and returns [false]; this
    holds for a scalar and for an element of a list under any key,
    [INCLUDE_CONFIGS] included. The state is the one in which the value
    was met plus that record. For a scalar that is the state in which the
    round for the key began, and so it is for an element of a list whose
    key is not [INCLUDE_CONFIGS]: nothing was written, for that key or any
    other. *)
Theorem undefined_reference_fails (depth : nat) (fs : string -> file)
    (json_file : string) (st : state) (before after : list (string * json))
    (key : string) (value : json) (val1 : option string) (st1 : state)
    (s : string) :
  fs json_file = Parsed (JObject (before ++ (key, value) :: after)) →
  for_items (nested_call depth fs) before None (entered json_file st)
  = Next val1 st1 →
  (value = JString s → dangling (be_env st1) s →
   ∃ w, w ∈ Py.findall s ∧ be_env st1 !! Py.tail w = None
        ∧ parse_config_file depth fs json_file st
          = (Returned false,
             logging
               (ERROR ("ERROR LVS FAILED, couldn't find environment variable "
                       +:+ w)) st1))
  ∧ (∀ pre post exports2 val2 st2,
       value = JArray (pre ++ JString s :: post) →
       for_val (nested_call depth fs) key pre (initial_exports key st1)
         val1 st1 = Next (exports2, val2) st2 →
       dangling (be_env st2) s →
       (key ≠ INCLUDE_CONFIGS → st2 = st1)
       ∧ ∃ w, w ∈ Py.findall s ∧ be_env st2 !! Py.tail w = None
              ∧ parse_config_file depth fs json_file st
                = (Returned false,
                   logging
                     (ERROR ("ERROR LVS FAILED, couldn't find environment variable "
                             +:+ w)) st2)).
Proof.
  intros Hfs Hbefore. rewrite parse_config_file_unfold. split.
  - intros -> [Hvalid Hs].
    destruct (substitute_dangling _ _ Hs) as (w & Hin & Hw & Hsub).
    exists w. repeat split; [done..|].
    eapply frame_return; [done..|]. simpl. by rewrite Hvalid, Hsub.
  - intros pre post exports2 val2 st2 -> Hpre [Hvalid Hs]. split.
    { intros Hkey. by eapply for_val_plain_next. }
    destruct (substitute_dangling _ _ Hs) as (w & Hin & Hw & Hsub).
    exists w. repeat split; [done..|].
    eapply frame_return; [done..|].
    simpl. rewrite for_val_app, Hpre. simpl. by rewrite Hvalid, Hsub.
Qed.

Lemma undefined_reference_fails_witness :
  let st1 := entered "cfg" pdk_seed in
  let st2 := entered "child" (setitem INCLUDE_CONFIGS "top child"
                                (entered "top" (seed "top"))) in
  parse_config_file 0
    (disk [("cfg", JObject [("LVS_IGNORE",
              JArray [JString "$PDK_ROOT/a";
                      JString "$PDK_ROOT/$UNDEFINED_VAR"])])])
    "cfg" pdk_seed
  = (Returned false,
     logging
       (ERROR "ERROR LVS FAILED, couldn't find environment variable $UNDEFINED_VAR")
       st1)
  ∧ parse_config_file 1 partial_include "top" (seed "top")
    = (Returned false,
       logging
         (ERROR "ERROR LVS FAILED, couldn't find environment variable $UNDEFINED")
         st2).
Proof.
  intros st1 st2. split.
  - destruct (undefined_reference_fails 0
                (disk [("cfg", JObject [("LVS_IGNORE",
                          JArray [JString "$PDK_ROOT/a";
                                  JString "$PDK_ROOT/$UNDEFINED_VAR"])])])
                "cfg" pdk_seed [] [] "LVS_IGNORE"
                (JArray [JString "$PDK_ROOT/a";
                         JString "$PDK_ROOT/$UNDEFINED_VAR"])
                None st1 "$PDK_ROOT/$UNDEFINED_VAR" eq_refl eq_refl)
      as [_ Hlist].
    destruct (Hlist [JString "$PDK_ROOT/a"] [] ["/pdk/a"] (Some "/pdk/a") st1
                eq_refl) as [_ (w & Hin & Hw & ->)].
    + vm_compute. reflexivity.
    + split; [reflexivity|].
      assert (Py.findall "$PDK_ROOT/$UNDEFINED_VAR"
              = ["$PDK_ROOT"; "$UNDEFINED_VAR"]) as -> by reflexivity.
      apply Exists_cons_tl, Exists_cons_hd. vm_compute. reflexivity.
    + assert (Py.findall "$PDK_ROOT/$UNDEFINED_VAR"
              = ["$PDK_ROOT"; "$UNDEFINED_VAR"]) as E by reflexivity.
      rewrite E in Hin.
      apply elem_of_cons in Hin as [->|Hin];
        [vm_compute in Hw; discriminate Hw|].
      apply list_elem_of_singleton in Hin as ->. reflexivity.
  - destruct (undefined_reference_fails 1 partial_include "top" (seed "top")
                [] [] INCLUDE_CONFIGS
                (JArray [JString "child"; JString "$UNDEFINED"])
                None (entered "top" (seed "top")) "$UNDEFINED" eq_refl eq_refl)
      as [_ Hlist].
    destruct (Hlist [JString "child"] [] ["top"; "child"] (Some "child") st2
                eq_refl) as [_ (w & Hin & Hw & ->)].
    + vm_compute. reflexivity.
    + split; [reflexivity|].
      assert (Py.findall "$UNDEFINED" = ["$UNDEFINED"]) as -> by reflexivity.
      apply Exists_cons_hd. vm_compute. reflexivity.
    + assert (Py.findall "$UNDEFINED" = ["$UNDEFINED"]) as E by reflexivity.
      rewrite E in Hin. apply list_elem_of_singleton in Hin as ->. reflexivity.
Defined.

(** ** Lists *)

Lemma substitute_Some_resolvable s env v msgs :
  substitute_env_variables s env = (Some v, msgs) →
  Forall (fun w => is_Some (env !! Py.tail w)) (Py.findall s)
  ∧ v = substituted env s.
Proof.
  rewrite substitute_env_variables_for_w. intros H.
  destruct (for_w_result (Py.findall s) s env)
    as [[Hall Hv]|(pre & w & post & _ & _ & _ & Hv)]; [|congruence].
  split; [done|]. rewrite Hv in H. by injection H as <- _.
Qed.

Lemma extend_cons exports v vals :
  extend exports (v :: vals)
  = extend (if decide (v ∈ exports) then exports else exports ++ [v]) vals.
Proof. reflexivity. Qed.

(** Appending without duplicates: the old list stays in front, and what
    follows are the new values, each once. *)
Lemma extend_spec exports vals :
  ∃ added, extend exports vals = exports ++ added ∧ NoDup added
           ∧ ∀ v, v ∈ added ↔ v ∈ vals ∧ v ∉ exports.
Proof.
  revert exports. induction vals as [|v vals IH]; intros exports.
  - exists []. rewrite app_nil_r. split; [done|]. split; [constructor|].
    intros v. rewrite !elem_of_nil. tauto.
  - rewrite extend_cons. destruct (decide (v ∈ exports)) as [Hin|Hin].
    + destruct (IH exports) as (added & -> & Hnd & Hmem).
      exists added. split; [done|]. split; [done|].
      intros v'. rewrite Hmem, elem_of_cons.
      split; [tauto|]. intros [[->|?] ?]; tauto.
    + destruct (IH (exports ++ [v])) as (added & -> & Hnd & Hmem).
      exists (v :: added). rewrite <- app_assoc. split; [done|]. split.
      * constructor; [|done]. rewrite Hmem, elem_of_app, list_elem_of_singleton.
        tauto.
      * intros v'. rewrite !elem_of_cons, Hmem, elem_of_app,
          list_elem_of_singleton.
        destruct (decide (v' = v)) as [->|]; tauto.
Qed.

Lemma extend_absorb exports vals :
  (∀ v, v ∈ vals → v ∈ exports) → extend exports vals = exports.
Proof.
  induction vals as [|v vals IH]; intros H; [done|].
  rewrite extend_cons. rewrite decide_True by apply H, list_elem_of_here.
  apply IH. intros v' ?. by apply H, list_elem_of_further.
Qed.

Lemma extend_includes exports vals v :
  v ∈ vals → v ∈ extend exports vals.
Proof.
  intros Hv. destruct (extend_spec exports vals) as (added & -> & _ & Hmem).
  apply elem_of_app. destruct (decide (v ∈ exports)); [by left|].
  right. by apply Hmem.
Qed.

Section ListFacts.

Variable call : string -> state -> outcome * state.

(** The loop over a list of resolvable strings, for a key other than
    [INCLUDE_CONFIGS]. *)
Lemma for_val_strings key strs exports val st :
  key ≠ INCLUDE_CONFIGS →
  Forall (resolvable (be_env st)) strs →
  ∃ val',
    for_val call key (JString <$> strs) exports val st
    = Next (extend exports (substituted (be_env st) <$> strs), val') st.
Proof.
  intros Hkey H. revert exports val.
  induction H as [|s strs [Hvalid Hs] _ IH]; intros exports val.
  - by exists val.
  - rewrite !fmap_cons, extend_cons.
    cbn [for_val]. rewrite Hvalid, (substitute_resolvable _ _ Hs).
    destruct (decide (substituted (be_env st) s ∈ exports)); [apply IH|].
    rewrite decide_False by done. apply IH.
Qed.

Lemma for_val_next_strings key elts exports val st exports' val' st' :
  key ≠ INCLUDE_CONFIGS →
  for_val call key elts exports val st = Next (exports', val') st' →
  ∃ strs, elts = JString <$> strs ∧ Forall (resolvable (be_env st)) strs.
Proof.
  intros Hkey. revert exports val.
  induction elts as [|elt elts IH]; intros exports val.
  - exists []. split; [done|constructor].
  - cbn [for_val]. destruct elt as [| | |s| |]; try done.
    destruct (is_valid s) eqn:Hvalid; [|done].
    destruct (substitute_env_variables s (be_env st)) as [[v|] msgs] eqn:Hs;
      [|done].
    apply substitute_Some_resolvable in Hs as [Hs _].
    assert (∀ ex, for_val call key elts ex (Some v) st = Next (exports', val') st' →
              ∃ strs, JString s :: elts = JString <$> strs
                      ∧ Forall (resolvable (be_env st)) strs) as Hgo.
    { intros ex (strs & -> & H)%IH. exists (s :: strs).
      split; [done|]. by constructor. }
    destruct (decide (v ∈ exports)); [apply Hgo|].
    rewrite decide_False by done. apply Hgo.
Qed.

End ListFacts.

(** ** Splitting and joining *)

Lemma no_space_app a b : no_space (a +:+ b) = no_space a && no_space b.
Proof.
  induction a as [|c a IH]; [done|].
  rewrite string_app_cons. simpl. by rewrite IH, andb_assoc.
Qed.

Lemma atom_inv x : atom x = true → x ≠ "" ∧ no_space x = true.
Proof. by destruct x. Qed.

Lemma split_from_no_space cur x rest :
  no_space x = true →
  Py.split_from cur (x +:+ rest) = Py.split_from (cur +:+ x) rest.
Proof.
  revert cur. induction x as [|c x IH]; intros cur Hx.
  - by rewrite string_app_nil_l, string_app_nil_r.
  - simpl in Hx. apply andb_prop in Hx as [Hc Hx].
    apply negb_true_iff in Hc.
    rewrite string_app_cons. simpl. rewrite Hc, IH by done.
    by rewrite string_app_assoc.
Qed.

Lemma split_from_atoms s cur :
  no_space cur = true →
  Forall (fun x => atom x = true) (Py.split_from cur s).
Proof.
  revert cur. induction s as [|c s IH]; intros cur Hcur; simpl.
  - destruct cur; [constructor|]. by repeat constructor.
  - destruct (Py.isspace c) eqn:Hc.
    + destruct cur; [by apply IH|]. constructor; [done|]. by apply IH.
    + apply IH. rewrite no_space_app, Hcur. simpl. by rewrite Hc.
Qed.

Lemma split_atoms o : Forall (fun x => atom x = true) (Py.split o).
Proof. by apply split_from_atoms. Qed.

Lemma split_atom x : atom x = true → Py.split x = [x].
Proof.
  intros [Hne Hx]%atom_inv. unfold Py.split.
  rewrite <- (string_app_nil_r x) at 1.
  rewrite split_from_no_space by done. rewrite string_app_nil_l.
  by destruct x.
Qed.

Lemma split_join l :
  Forall (fun x => atom x = true) l → Py.split (Py.join l) = l.
Proof.
  induction 1 as [|x l Hx Hl IH]; [done|].
  destruct l as [|y l]; [by apply split_atom|].
  apply atom_inv in Hx as [Hne Hx].
  change (Py.join (x :: y :: l)) with (x +:+ String " " (Py.join (y :: l))).
  unfold Py.split in *. rewrite split_from_no_space by done.
  rewrite string_app_nil_l. simpl in IH |- *. destruct x; [done|].
  by rewrite IH.
Qed.

(** ** What a round reads *)

Lemma replace_each_agree words s (env env' : gmap string string) :
  (∀ w, w ∈ words → env !! Py.tail w = env' !! Py.tail w) →
  replace_each env words s = replace_each env' words s.
Proof.
  unfold replace_each. revert s.
  induction words as [|w words IH]; intros s H; [done|]. simpl.
  rewrite <- (H w) by apply list_elem_of_here.
  apply IH. intros w' ?. by apply H, list_elem_of_further.
Qed.

Section Agree.

Variables env env' : gmap string string.

Lemma substitute_agree s :
  (∀ n, n ∈ Py.tail <$> Py.findall s → env !! n = env' !! n) →
  substitute_env_variables s env = substitute_env_variables s env'.
Proof.
  intros H. rewrite !substitute_env_variables_for_w. apply for_w_agree.
  intros w Hw. apply H. by apply list_elem_of_fmap_2.
Qed.

Lemma substituted_agree s :
  (∀ n, n ∈ Py.tail <$> Py.findall s → env !! n = env' !! n) →
  substituted env s = substituted env' s.
Proof.
  intros H. apply replace_each_agree.
  intros w Hw. apply H. by apply list_elem_of_fmap_2.
Qed.

Lemma resolvable_agree s :
  (∀ n, n ∈ Py.tail <$> Py.findall s → env !! n = env' !! n) →
  resolvable env s → resolvable env' s.
Proof.
  intros H [Hvalid Hs]. split; [done|].
  rewrite Forall_forall in *. intros w Hw.
  rewrite <- H by (by apply list_elem_of_fmap_2). auto.
Qed.

End Agree.

(** ** The round on one key *)

Lemma exports_in_initial key st :
  initial_exports key st = exports_in (be_env st) key.
Proof. reflexivity. Qed.

Lemma element_names_references strs s n :
  s ∈ strs → n ∈ Py.tail <$> Py.findall s →
  n ∈ references (JArray (JString <$> strs)).
Proof.
  intros Hs Hn. simpl. apply list_elem_of_bind. exists (JString s).
  split; [done|]. by apply list_elem_of_fmap_2.
Qed.

Section Round.

Variable call : string -> state -> outcome * state.

(** A round that runs to its end wrote one string under its key. *)
Lemma round_written key value val st val' st' :
  key ≠ INCLUDE_CONFIGS →
  for_item call key value val st = Next val' st' →
  ∃ x, written (be_env st) key value x ∧ st' = setitem key x st.
Proof.
  intros Hkey. destruct value as [| | |s|elts|]; try done.
  - cbn [for_item]. destruct (is_valid s) eqn:Hvalid; [|by destruct val].
    destruct (substitute_env_variables s (be_env st)) as [[v|] msgs] eqn:Hs;
      [|done].
    intros [= <- <-]. exists v. split; [|done]. split; [done|].
    apply substitute_Some_resolvable in Hs as [Hs ->].
    by apply substitute_resolvable.
  - cbn [for_item].
    destruct (for_val call key elts (initial_exports key st) val st)
      as [[exports v1] st1| |] eqn:E; [|done..].
    rewrite decide_False by done. intros [= <- <-].
    assert (st1 = st) as -> by (by eapply for_val_plain_next).
    destruct (for_val_next_strings _ _ _ _ _ _ _ _ _ Hkey E)
      as (strs & -> & Hstrs).
    destruct (for_val_strings call key strs (initial_exports key st) val st
                Hkey Hstrs) as [v2 E'].
    rewrite E' in E. injection E as <- _.
    exists (Py.join (extend (initial_exports key st)
                       (substituted (be_env st) <$> strs))).
    split; [|done]. by exists strs.
Qed.

Lemma written_round key value x val st :
  key ≠ INCLUDE_CONFIGS →
  written (be_env st) key value x →
  ∃ val', for_item call key value val st = Next val' (setitem key x st).
Proof.
  intros Hkey. destruct value as [| | |s|elts|]; try (simpl; tauto).
  - intros [Hvalid Hs]. exists val. cbn [for_item]. by rewrite Hvalid, Hs.
  - intros (strs & -> & Hstrs & ->). cbn [for_item].
    destruct (for_val_strings call key strs (initial_exports key st) val st
                Hkey Hstrs) as [v2 ->].
    rewrite decide_False by done. by exists v2.
Qed.

End Round.

(** What is written depends on the environment at the key and at the names
    the value refers to. *)
Lemma written_agree (env env' : gmap string string) key value x :
  env !! key = env' !! key →
  (∀ n, n ∈ references value → env !! n = env' !! n) →
  written env key value x → written env' key value x.
Proof.
  intros Hkey Hrefs. destruct value as [| | |s|elts|]; try (simpl; tauto).
  - intros [Hvalid Hs]. split; [done|].
    by rewrite <- (substitute_agree env env' s).
  - intros (strs & -> & Hstrs & ->). exists strs. split; [done|].
    assert (∀ s, s ∈ strs →
              ∀ n, n ∈ Py.tail <$> Py.findall s → env !! n = env' !! n) as H.
    { intros s Hs n Hn. eapply Hrefs, element_names_references; done. }
    split.
    + rewrite Forall_forall in *. intros s Hs.
      eapply resolvable_agree; [by apply H|]. auto.
    + unfold exports_in. rewrite <- Hkey. do 2 f_equal.
      apply Forall_fmap_ext, Forall_forall. intros s Hs.
      apply substituted_agree. by apply H.
Qed.

(** Once written, the same round on the new environment writes the same
    string again. *)
Lemma written_settles (env : gmap string string) key value x :
  (∀ n, n ∈ references value → n ≠ key) →
  clean env value →
  written env key value x → written (<[key := x]> env) key value x.
Proof.
  intros Hrefs Hclean. destruct value as [| | |s|elts|]; try (simpl; tauto).
  - intros [Hvalid Hs]. split; [done|].
    rewrite <- (substitute_agree env); [done|].
    intros n Hn. symmetry. apply lookup_insert_ne. intros <-.
    by apply (Hrefs key).
  - intros (strs & -> & Hstrs & ->). exists strs. split; [done|].
    set (x := Py.join _).
    assert (∀ s, s ∈ strs →
              ∀ n, n ∈ Py.tail <$> Py.findall s →
                   env !! n = <[key := x]> env !! n) as H.
    { intros s Hs n Hn. symmetry. apply lookup_insert_ne. intros <-.
      eapply Hrefs; [|done]. eapply element_names_references; done. }
    split.
    + rewrite Forall_forall in *. intros s Hs.
      eapply resolvable_agree; [by apply H|]. auto.
    + assert (substituted (<[key := x]> env) <$> strs
              = substituted env <$> strs) as ->.
      { apply Forall_fmap_ext, Forall_forall. intros s Hs. symmetry.
        apply substituted_agree. by apply H. }
      unfold exports_in at 1. rewrite lookup_insert_eq.
      assert (Forall (fun v => atom v = true)
                (extend (exports_in env key) (substituted env <$> strs)))
        as Hatoms.
      { destruct (extend_spec (exports_in env key) (substituted env <$> strs))
          as (added & -> & _ & Hadded).
        apply Forall_app. split.
        - unfold exports_in. destruct (env !! key); [apply split_atoms|constructor].
        - apply Forall_forall. intros v [Hv _]%Hadded.
          apply list_elem_of_fmap in Hv as (s & -> & Hs).
          simpl in Hclean. rewrite Forall_fmap, Forall_forall in Hclean.
          by apply (Hclean s). }
      subst x. rewrite (split_join _ Hatoms).
      rewrite (extend_absorb (extend (exports_in env key)
                               (substituted env <$> strs))
                 (substituted env <$> strs)); [done|].
      intros v. apply extend_includes.
Qed.

(** ** Every [return] inside the loops is [return False] *)

Section Returns.

Variable call : string -> state -> outcome * state.

Lemma for_val_return key elts exports val st b st' :
  for_val call key elts exports val st = Return b st' → b = false.
Proof.
  revert exports val st. induction elts as [|elt elts IH]; intros exports val st.
  - done.
  - cbn [for_val]. destruct elt as [| | |s| |]; try done.
    destruct (is_valid s); [|by intros [= <- _]].
    destruct (substitute_env_variables s (be_env st)) as [[v|] msgs];
      [|by intros [= <- _]].
    destruct (decide (v ∈ exports)); [apply IH|].
    destruct (decide (key = INCLUDE_CONFIGS)); [|apply IH].
    destruct (be_env st !! INCLUDE_CONFIGS); [|done].
    destruct (call v _) as [[[|]|err] st1]; [apply IH|by intros [= <- _]|done].
Qed.

Lemma for_item_return key value val st b st' :
  for_item call key value val st = Return b st' → b = false.
Proof.
  destruct value as [| | |s|elts|]; try done; cbn [for_item].
  - destruct (is_valid s).
    + by destruct (substitute_env_variables s (be_env st)) as [[v|] msgs];
        [|intros [= <- _]].
    + destruct val; [by intros [= <- _]|done].
  - destruct (for_val call key elts (initial_exports key st) val st)
      as [[exports v1] st1|b1 st1|] eqn:E; [|intros [= <- _]|done].
    + by destruct (decide (key = INCLUDE_CONFIGS)).
    + by eapply for_val_return.
Qed.

Lemma for_items_return items val st b st' :
  for_items call items val st = Return b st' → b = false.
Proof.
  revert val st. induction items as [|[key value] items IH]; intros val st.
  - done.
  - cbn [for_items].
    destruct (for_item call key value val st) as [val1 st1|b1 st1|] eqn:E;
      [apply IH|intros [= <- _]|done].
    by eapply for_item_return.
Qed.

End Returns.

(** ** What a pass writes *)

Section Writes.

Variable call : string -> state -> outcome * state.

(** The loop over a list whose key is not [INCLUDE_CONFIGS] leaves the
    environment alone, however it ends. *)
Lemma for_val_plain_env key elts exports val st :
  key ≠ INCLUDE_CONFIGS →
  be_env (step_state (for_val call key elts exports val st)) = be_env st.
Proof.
  intros Hkey. revert exports val.
  induction elts as [|elt elts IH]; intros exports val; [done|].
  cbn [for_val]. destruct elt as [| | |s| |]; try done.
  destruct (is_valid s); [|done].
  destruct (substitute_env_variables s (be_env st)) as [[v|] msgs]; [|done].
  destruct (decide (v ∈ exports)); [apply IH|].
  rewrite decide_False by done. apply IH.
Qed.

(** A round on such a key writes that key when it runs to its end, and
    nothing otherwise. *)
Lemma for_item_plain_env key value val st :
  key ≠ INCLUDE_CONFIGS →
  match for_item call key value val st with
  | Next _ st' => ∃ x, st' = setitem key x st
  | Return _ st' | Raise _ st' => be_env st' = be_env st
  end.
Proof.
  intros Hkey. destruct value as [| | |s|elts|]; try done; cbn [for_item].
  - destruct (is_valid s); [|by destruct val].
    destruct (substitute_env_variables s (be_env st)) as [[v|] msgs]; [|done].
    by exists v.
  - pose proof (for_val_plain_env key elts (initial_exports key st) val st Hkey)
      as Henv.
    destruct (for_val call key elts (initial_exports key st) val st)
      as [[exports v1] st1|b st1|e st1] eqn:E; [|done..].
    rewrite decide_False by done.
    assert (st1 = st) as -> by (by eapply for_val_plain_next).
    by eexists.
Qed.

(** A pass over entries without [INCLUDE_CONFIGS] writes their keys only. *)
Lemma for_items_plain_keeps items val st k :
  INCLUDE_CONFIGS ∉ items.*1 → k ∉ items.*1 →
  be_env (step_state (for_items call items val st)) !! k = be_env st !! k.
Proof.
  revert val st. induction items as [|[key value] items IH]; intros val st; [done|].
  rewrite fmap_cons. intros [HIC HICs]%not_elem_of_cons [Hk Hks]%not_elem_of_cons.
  cbn [for_items fst] in *.
  pose proof (for_item_plain_env key value val st (not_eq_sym HIC)) as Hitem.
  destruct (for_item call key value val st) as [val1 st1|b st1|e st1].
  - destruct Hitem as [x ->]. rewrite IH by done.
    cbn [setitem be_env]. by apply lookup_insert_ne.
  - cbn [step_state]. by rewrite Hitem.
  - cbn [step_state]. by rewrite Hitem.
Qed.

End Writes.

(** The environment a call ends in is the one its loop ends in. *)
Lemma parse_config_file_be_env depth fs json_file items st :
  fs json_file = Parsed (JObject items) →
  be_env (parse_config_file depth fs json_file st).2
  = be_env (step_state (for_items (nested_call depth fs) items None
                          (entered json_file st))).
Proof.
  intros Hfs. rewrite parse_config_file_unfold. unfold frame, try_body.
  rewrite Hfs. fold (entered json_file st).
  by destruct (for_items _ items None (entered json_file st)).
Qed.



(** C3, as stated, fails: a second resolution changes the environment
    when a value refers to its own key or to a key the document sets
    later, and when a list element is not one whitespace-free piece,
    because the list is read back by splitting the joined string. *)
Lemma resolve_twice_counterexample :
  let a := State {[ "A" := "r" ]} [] in
  let y := State {[ "Y" := "old" ]} [] in
  let e := State ∅ [] in
  ((once self_reference a).1 = Returned true
   ∧ (twice self_reference a).1 = Returned true
   ∧ be_env (once self_reference a).2 !! "A" = Some "r/x"
   ∧ be_env (twice self_reference a).2 !! "A" = Some "r/x/x")
  ∧ ((once forward_reference y).1 = Returned true
     ∧ (twice forward_reference y).1 = Returned true
     ∧ be_env (once forward_reference y).2 !! "X" = Some "old"
     ∧ be_env (twice forward_reference y).2 !! "X" = Some "new")
  ∧ ((once blank_element e).1 = Returned true
     ∧ (twice blank_element e).1 = Returned true
     ∧ be_env (once blank_element e).2 !! "L" = Some "a b"
     ∧ be_env (twice blank_element e).2 !! "L" = Some "a b a b")
  ∧ ((once empty_element e).1 = Returned true
     ∧ (twice empty_element e).1 = Returned true
     ∧ be_env (once empty_element e).2 !! "L" = Some " a"
     ∧ be_env (twice empty_element e).2 !! "L" = Some "a ")
  ∧ ¬ (∀ items st, be_env (twice items st).2 = be_env (once items st).2).
Proof.
  intros a y e. repeat apply conj.
  1-16: vm_compute; reflexivity.
  intros H. specialize (H self_reference a).
  apply (f_equal (fun m : gmap string string => m !! "A")) in H.
  vm_compute in H. discriminate H.
Qed.

(** ** Resolving twice *)

Lemma forallb_elem {A : Type} (f : A → bool) (l : list A) (x : A) :
  forallb f l = true → x ∈ l → f x = true.
Proof.
  induction l as [|y l IH]; [by intros _ ?%elem_of_nil|].
  cbn [forallb]. intros [Hy Hl]%andb_prop [->|Hx]%elem_of_cons; auto.
Qed.

(** Elements that resolve and give single pieces in an environment do so
    in every environment that agrees with it on the names they refer to. *)
Lemma pieces_clean (env env' : gmap string string) strs :
  (∀ n, n ∈ references (JArray (JString <$> strs)) → env !! n = env' !! n) →
  Forall (resolvable env) strs →
  pieces env' (JArray (JString <$> strs)) = true →
  clean env (JArray (JString <$> strs)).
Proof.
  intros Hrefs Hstrs Hpieces. cbn [clean pieces] in *.
  rewrite Forall_fmap. rewrite Forall_forall in *. intros s Hs. cbn.
  pose proof (forallb_elem _ _ (JString s) Hpieces
                (list_elem_of_fmap_2 JString _ _ Hs)) as Hpiece.
  destruct (Hstrs s Hs) as [Hvalid Hres].
  cbn [piece] in Hpiece. rewrite Hvalid in Hpiece.
  rewrite <- (substitute_agree env env') in Hpiece.
  - by rewrite (substitute_resolvable _ _ Hres) in Hpiece.
  - intros n Hn. eapply Hrefs, element_names_references; done.
Qed.

Section Replay.

Variable call : string -> state -> outcome * state.

(** A second pass, started in the environment the first pass ended in,
    ends as the first did and leaves that environment as it is. *)
Lemma replay items val_a st_a val_b st_b :
  NoDup items.*1 → INCLUDE_CONFIGS ∉ items.*1 → backward items = true →
  forallb (fun kv =>
             pieces (be_env (step_state (for_items call items val_a st_a))) kv.2)
    items = true →
  be_env st_b = be_env (step_state (for_items call items val_a st_a)) →
  completes (for_items call items val_b st_b)
  = completes (for_items call items val_a st_a)
  ∧ be_env (step_state (for_items call items val_b st_b)) = be_env st_b.
Proof.
  revert val_a st_a val_b st_b.
  induction items as [|[k v] items IH];
    intros val_a st_a val_b st_b Hnd HIC Hback Hpieces Henv; [done|].
  rewrite fmap_cons in Hnd, HIC. cbn [fst] in Hnd, HIC.
  apply NoDup_cons in Hnd as [Hk Hnd].
  pose proof HIC as HIC0.
  apply not_elem_of_cons in HIC as [HkIC HIC]. apply not_eq_sym in HkIC.
  cbn [backward] in Hback. apply andb_prop in Hback as [Hrefs Hback].
  assert (∀ n, n ∈ references v →
            be_env (step_state (for_items call ((k, v) :: items) val_a st_a)) !! n
            = be_env st_a !! n) as Hagree.
  { intros n Hn. apply for_items_plain_keeps; [by rewrite fmap_cons|].
    rewrite fmap_cons. cbn [fst].
    pose proof (forallb_elem _ _ n Hrefs Hn) as H.
    by apply bool_decide_eq_true in H. }
  assert (∀ n, n ∈ references v → n ≠ k) as Hnk.
  { intros n Hn ->.
    pose proof (forallb_elem _ _ k Hrefs Hn) as H.
    apply bool_decide_eq_true in H. apply H, list_elem_of_here. }
  cbn [forallb snd] in Hpieces. apply andb_prop in Hpieces as [Hpv Hpieces].
  cbn [for_items] in *.
  pose proof (for_item_plain_env call k v val_a st_a HkIC) as Hstop_a.
  pose proof (for_item_plain_env call k v val_b st_b HkIC) as Hstop_b.
  destruct (for_item call k v val_a st_a) as [val1 st1|b1 st1|e1 st1] eqn:Ea.
  - destruct (round_written call _ _ _ _ _ _ HkIC Ea) as (x & Hw & ->).
    set (F := be_env (step_state (for_items call items val1 (setitem k x st_a))))
      in *.
    assert (F !! k = Some x) as HFk.
    { unfold F. rewrite for_items_plain_keeps by done.
      cbn [setitem be_env]. apply lookup_insert_eq. }
    assert (written F k v x) as HwF.
    { apply (written_agree (<[k := x]> (be_env st_a))).
      - by rewrite lookup_insert_eq.
      - intros n Hn. rewrite lookup_insert_ne by (apply not_eq_sym; auto).
        symmetry. by apply Hagree.
      - apply written_settles; [done| |done].
        destruct v as [| | |s|elts|]; try done.
        destruct Hw as (strs & -> & Hstrs & _).
        apply (pieces_clean _ F); [|done..].
        intros n Hn. symmetry. by apply Hagree. }
    rewrite <- Henv in HwF.
    destruct (written_round call k v x val_b st_b HkIC HwF) as [val2 ->].
    assert (be_env (setitem k x st_b) = F) as Henv'.
    { cbn [setitem be_env]. rewrite Henv. by apply insert_id. }
    destruct (IH val1 (setitem k x st_a) val2 (setitem k x st_b))
      as [Hend Hkeep]; [done..|].
    split; [done|]. by rewrite Hkeep, Henv'.
  - cbn [step_state] in Henv. rewrite Hstop_a in Henv.
    destruct (for_item call k v val_b st_b) as [val2 st2|b2 st2|e2 st2] eqn:Eb;
      [|done..].
    destruct (round_written call _ _ _ _ _ _ HkIC Eb) as (x & Hw & _).
    rewrite Henv in Hw.
    destruct (written_round call k v x val_a st_a HkIC Hw) as [val' E'].
    congruence.
  - cbn [step_state] in Henv. rewrite Hstop_a in Henv.
    destruct (for_item call k v val_b st_b) as [val2 st2|b2 st2|e2 st2] eqn:Eb;
      [|done..].
    destruct (round_written call _ _ _ _ _ _ HkIC Eb) as (x & Hw & _).
    rewrite Henv in Hw.
    destruct (written_round call k v x val_a st_a HkIC Hw) as [val' E'].
    congruence.
Qed.

End Replay.

(** A call on a document returns whether its loop ran to the end. *)
Lemma parse_config_file_completes depth fs json_file items st :
  fs json_file = Parsed (JObject items) →
  (parse_config_file depth fs json_file st).1
  = Returned (completes (for_items (nested_call depth fs) items None
                           (entered json_file st))).
Proof.
  intros Hfs. rewrite parse_config_file_unfold. unfold frame, try_body.
  rewrite Hfs. fold (entered json_file st).
  destruct (for_items _ items None (entered json_file st)) as [| b st'|] eqn:E;
    [done| |done].
  by apply for_items_return in E as ->.
Qed.

(** C3, amended. Take a document without [INCLUDE_CONFIGS] whose keys are
    distinct, in which no value refers to the key of its own entry or of a
    later one (references to earlier keys and to the seed are free), and
    whose list elements, where they pass the checks, are each substituted
    to one non-empty piece without whitespace. Resolving it again in the
    environment the first resolution left returns what the first
    resolution returned, [true] or [false], and leaves that environment as
    it is. *)
Theorem resolve_twice (depth : nat) (fs : string -> file) (json_file : string)
    (items : list (string * json)) (st : state) :
  let first := parse_config_file depth fs json_file st in
  let second := parse_config_file depth fs json_file first.2 in
  fs json_file = Parsed (JObject items) →
  NoDup items.*1 → INCLUDE_CONFIGS ∉ items.*1 → backward items = true →
  forallb (fun kv => pieces (be_env first.2) kv.2) items = true →
  second.1 = first.1 ∧ be_env second.2 = be_env first.2.
Proof.
  intros first second Hfs Hnd HIC Hback Hpieces. subst first second.
  rewrite (parse_config_file_be_env _ _ _ _ _ Hfs) in Hpieces.
  rewrite !(parse_config_file_completes _ _ _ _ _ Hfs).
  rewrite !(parse_config_file_be_env _ _ _ _ _ Hfs).
  set (st1 := (parse_config_file depth fs json_file st).2).
  destruct (replay (nested_call depth fs) items None (entered json_file st)
              None (entered json_file st1)) as [Hend Hkeep]; [done..| |].
  - change (be_env (entered json_file st1)) with (be_env st1).
    unfold st1. by apply parse_config_file_be_env.
  - rewrite Hend, Hkeep. split; [done|].
    change (be_env (entered json_file st1)) with (be_env st1).
    unfold st1. by apply parse_config_file_be_env.
Qed.

Lemma resolve_twice_witness :
  ((twice lvs_document pdk_seed).1 = Returned true
   ∧ be_env (twice lvs_document pdk_seed).2
     = be_env (once lvs_document pdk_seed).2)
  ∧ ((twice failing_document pdk_seed).1 = Returned false
     ∧ be_env (twice failing_document pdk_seed).2
       = be_env (once failing_document pdk_seed).2).
Proof.
  split.
  - destruct (resolve_twice 0 (one_file lvs_document) "cfg" lvs_document
                pdk_seed eq_refl) as [Hend Hkeep].
    + apply (bool_decide_unpack _). vm_compute. exact I.
    + apply (bool_decide_unpack _). vm_compute. exact I.
    + vm_compute. reflexivity.
    + vm_compute. reflexivity.
    + split; [|exact Hkeep].
      unfold twice, once. rewrite Hend. vm_compute. reflexivity.
  - destruct (resolve_twice 0 (one_file failing_document) "cfg"
                failing_document pdk_seed eq_refl) as [Hend Hkeep].
    + apply (bool_decide_unpack _). vm_compute. exact I.
    + apply (bool_decide_unpack _). vm_compute. exact I.
    + vm_compute. reflexivity.
    + vm_compute. reflexivity.
    + split; [|exact Hkeep].
      unfold twice, once. rewrite Hend. vm_compute. reflexivity.
Defined.

(** * Further properties of the loader *)

(** ** A string with one variable *)

Lemma replace1_prefix s w v r :
  Py.strip_prefix w s = Some r → Py.replace1 s w v = v +:+ r.
Proof. intros H. destruct s; simpl; by rewrite H. Qed.

Lemma replace1_skip p t n v :
  Py.contains "$" p = false →
  Py.replace1 (p +:+ String "$" t) (String "$" n) v
  = p +:+ Py.replace1 (String "$" t) (String "$" n) v.
Proof.
  induction p as [|c p IH]; [done|]. cbn [Py.contains].
  intros [Hc Hp]%orb_false_elim. rewrite !string_app_cons.
  cbn [Py.replace1 Py.strip_prefix]. by rewrite Hc, IH.
Qed.

Lemma substitute_one_token p name rest (env : gmap string string) :
  Py.contains "$" p = false → Py.contains "$" rest = false →
  name ≠ "" → all_word name = true → Py.word_prefix rest = "" →
  substitute_env_variables (p +:+ String "$" (name +:+ rest)) env
  = match env !! name with
    | Some v => (Some (p +:+ v +:+ rest), [])
    | None => (None, [ERROR (missing_variable_msg (String "$" name))])
    end.
Proof.
  intros Hp Hrest Hne Hname Hstop.
  rewrite substitute_env_variables_for_w.
  rewrite findall_next by (done || by apply findall_no_dollar).
  rewrite (findall_no_dollar rest) by done. cbn [for_w Py.tail].
  destruct (env !! name) as [v|]; [|done].
  rewrite replace1_skip by done.
  rewrite (replace1_prefix _ _ _ rest); [done|].
  apply strip_prefix_Some. by rewrite string_app_cons.
Qed.

(** X1. A string with a single variable reference, [p$NAMErest] with no
    other [$], is substituted to [p], the value of [NAME], [rest]; when
    [NAME] is undefined the call returns [None] and logs the error that
    names [$NAME]. *)
Theorem substitute_single_variable (p name rest : string)
    (env : gmap string string) :
  Py.contains "$" p = false → Py.contains "$" rest = false →
  name ≠ "" → all_word name = true → Py.word_prefix rest = "" →
  substitute_env_variables (p +:+ String "$" (name +:+ rest)) env
  = match env !! name with
    | Some v => (Some (p +:+ v +:+ rest), [])
    | None =>
        (None,
         [ERROR ("ERROR LVS FAILED, couldn't find environment variable "
                 +:+ String "$" name)])
    end.
Proof. apply substitute_one_token. Qed.

Lemma substitute_single_variable_witness :
  substitute_env_variables "lib/$PDK_ROOT/sky130A" (<["PDK_ROOT" := "/pdk"]> ∅)
  = (Some "lib//pdk/sky130A", []).
Proof.
  change "lib/$PDK_ROOT/sky130A"
    with ("lib/" +:+ String "$" ("PDK_ROOT" +:+ "/sky130A")).
  rewrite (substitute_single_variable "lib/" "PDK_ROOT" "/sky130A"
             (<["PDK_ROOT" := "/pdk"]> ∅));
    (reflexivity || discriminate).
Defined.

(** ** Scalars *)

Lemma be_env_entered json_file st : be_env (entered json_file st) = be_env st.
Proof. reflexivity. Qed.

Lemma be_env_setitem key x st :
  be_env (setitem key x st) = <[key := x]> (be_env st).
Proof. reflexivity. Qed.

Lemma parse_single_scalar depth fs json_file key s st :
  fs json_file = Parsed (JObject [(key, JString s)]) →
  resolvable (be_env st) s →
  parse_config_file depth fs json_file st
  = (Returned true,
     setitem key (substituted (be_env st) s) (entered json_file st)).
Proof.
  intros Hfs [Hvalid Hs]. rewrite parse_config_file_unfold.
  unfold frame, try_body. rewrite Hfs. fold (entered json_file st).
  cbn [for_items for_item]. rewrite Hvalid, be_env_entered.
  by rewrite (substitute_resolvable _ _ Hs).
Qed.

(** X2. A scalar overwrites: when two files give the same key a scalar
    and are resolved one after the other, the key holds what the second
    file's value is substituted to, whatever the first file and the
    environment had put there. (The second value must not refer to the key
    itself.) *)
Theorem scalar_last_write_wins (depth : nat) (fs : string -> file)
    (one two key s1 s2 : string) (st : state) :
  fs one = Parsed (JObject [(key, JString s1)]) →
  fs two = Parsed (JObject [(key, JString s2)]) →
  resolvable (be_env st) s1 → resolvable (be_env st) s2 →
  key ∉ Py.tail <$> Py.findall s2 →
  let r1 := parse_config_file depth fs one st in
  let r2 := parse_config_file depth fs two r1.2 in
  r1.1 = Returned true ∧ r2.1 = Returned true
  ∧ be_env r2.2 = <[key := substituted (be_env st) s2]> (be_env st).
Proof.
  intros Hone Htwo H1 H2 Hkey r1 r2. subst r1 r2.
  rewrite (parse_single_scalar depth fs one key s1 st) by done.
  split; [done|]. cbn [snd].
  set (st1 := setitem key _ _).
  assert (∀ n, n ∈ Py.tail <$> Py.findall s2 →
               be_env st !! n = be_env st1 !! n) as Hagree.
  { intros n Hn. subst st1. rewrite be_env_setitem, be_env_entered.
    symmetry. apply lookup_insert_ne. by intros <-. }
  rewrite (parse_single_scalar depth fs two key s2 st1);
    [|done|by eapply resolvable_agree].
  split; [done|]. cbn [snd]. rewrite be_env_setitem, be_env_entered.
  rewrite <- (substituted_agree _ _ s2 Hagree).
  subst st1. rewrite be_env_setitem, be_env_entered.
  apply insert_insert_eq.
Qed.

Lemma scalar_last_write_wins_witness :
  let fs := disk [("one", JObject [("LAYOUT_FILE", JString "$PDK_ROOT/a.gds")]);
                  ("two", JObject [("LAYOUT_FILE", JString "b.gds")])] in
  let r1 := parse_config_file 0 fs "one" pdk_seed in
  let r2 := parse_config_file 0 fs "two" r1.2 in
  r1.1 = Returned true ∧ r2.1 = Returned true
  ∧ be_env r2.2 = <["LAYOUT_FILE" := substituted (be_env pdk_seed) "b.gds"]>
                    (be_env pdk_seed).
Proof.
  intros fs.
  apply (scalar_last_write_wins 0 fs "one" "two" "LAYOUT_FILE"
           "$PDK_ROOT/a.gds" "b.gds" pdk_seed eq_refl eq_refl).
  - split; [reflexivity|].
    change (Py.findall "$PDK_ROOT/a.gds") with ["$PDK_ROOT"].
    constructor; [|constructor]. exists "/pdk". vm_compute. reflexivity.
  - split; [reflexivity|]. constructor.
  - intros H. change (Py.tail <$> Py.findall "b.gds") with (@nil string) in H.
    by apply elem_of_nil in H.
Defined.

(** X3. Values are read in the order of the document: a key that the
    document sets can be referred to by a later value of the same
    document, which then gets the substituted text; the same two entries
    the other way round fail on the reference when the environment does
    not already have the name, and nothing is written. *)
Theorem earlier_key_visible (depth : nat) (fs : string -> file)
    (forth back name s1 key pre rest : string) (st : state) :
  let ref := pre +:+ String "$" (name +:+ rest) in
  fs forth = Parsed (JObject [(name, JString s1); (key, JString ref)]) →
  fs back = Parsed (JObject [(key, JString ref); (name, JString s1)]) →
  resolvable (be_env st) s1 → is_valid ref = true →
  Py.contains "$" pre = false → Py.contains "$" rest = false →
  name ≠ "" → all_word name = true → Py.word_prefix rest = "" →
  parse_config_file depth fs forth st
  = (Returned true,
     setitem key (pre +:+ substituted (be_env st) s1 +:+ rest)
       (setitem name (substituted (be_env st) s1) (entered forth st)))
  ∧ (be_env st !! name = None →
     parse_config_file depth fs back st
     = (Returned false,
        logging
          (ERROR ("ERROR LVS FAILED, couldn't find environment variable "
                  +:+ String "$" name))
          (entered back st))).
Proof.
  intros ref Hforth Hback [Hvalid Hs1] Hvref Hpre Hrest Hne Hname Hstop.
  rewrite !parse_config_file_unfold. unfold frame, try_body.
  rewrite Hforth, Hback.
  fold (entered forth st). fold (entered back st).
  cbn [for_items for_item]. rewrite Hvalid, Hvref, !be_env_entered.
  rewrite (substitute_resolvable _ _ Hs1). split.
  - rewrite be_env_setitem, be_env_entered. subst ref.
    rewrite substitute_one_token by done.
    by rewrite lookup_insert_eq.
  - intros Hnone. subst ref.
    rewrite substitute_one_token by done. by rewrite Hnone.
Qed.

Lemma earlier_key_visible_witness :
  let fs := disk [("forth", JObject [("TOP", JString "chip");
                                     ("LAYOUT_FILE", JString "gds/$TOP.gds")]);
                  ("back", JObject [("LAYOUT_FILE", JString "gds/$TOP.gds");
                                    ("TOP", JString "chip")])] in
  let st := seed "forth" in
  parse_config_file 0 fs "forth" st
  = (Returned true,
     setitem "LAYOUT_FILE" ("gds/" +:+ substituted (be_env st) "chip" +:+ ".gds")
       (setitem "TOP" (substituted (be_env st) "chip") (entered "forth" st)))
  ∧ parse_config_file 0 fs "back" st
    = (Returned false,
       logging (ERROR (missing_variable_msg "$TOP")) (entered "back" st)).
Proof.
  intros fs st.
  destruct (earlier_key_visible 0 fs "forth" "back" "TOP" "chip" "LAYOUT_FILE"
              "gds/" ".gds" st eq_refl eq_refl) as [Hforth Hback].
  - split; [reflexivity|]. constructor.
  - reflexivity.
  - reflexivity.
  - reflexivity.
  - discriminate.
  - reflexivity.
  - reflexivity.
  - split; [exact Hforth|]. apply Hback. vm_compute. reflexivity.
Defined.

(** ** What a call keeps *)

Lemma grows_refl st : grows st st.
Proof. split; [done|]. exists []. by rewrite app_nil_r. Qed.

Lemma grows_trans st1 st2 st3 : grows st1 st2 → grows st2 st3 → grows st1 st3.
Proof.
  intros [Hd1 [m1 Hl1]] [Hd2 [m2 Hl2]]. split; [by etrans|].
  exists (m1 ++ m2). by rewrite Hl2, Hl1, app_assoc.
Qed.

Lemma grows_logging_all rs st : grows st (logging_all rs st).
Proof. split; [done|]. by exists rs. Qed.

Lemma grows_logging r st : grows st (logging r st).
Proof. apply (grows_logging_all [r]). Qed.

Lemma grows_setitem key x st : grows st (setitem key x st).
Proof.
  split.
  - simpl. rewrite dom_insert_L. apply union_subseteq_r.
  - exists []. simpl. by rewrite app_nil_r.
Qed.

Section Grows.

Variable fs : string -> file.
Variable call : string -> state -> outcome * state.
Hypothesis call_grows : ∀ child st, grows st (call child st).2.

Lemma for_val_grows key elts exports val st :
  grows st (step_state (for_val call key elts exports val st)).
Proof.
  revert exports val st. induction elts as [|elt elts IH]; intros exports val st.
  - apply grows_refl.
  - cbn [for_val]. destruct elt as [| | |s| |]; try apply grows_refl.
    destruct (is_valid s); [|apply grows_logging].
    destruct (substitute_env_variables s (be_env st)) as [[v|] msgs];
      [|apply grows_logging_all].
    destruct (decide (v ∈ exports)); [apply IH|].
    destruct (decide (key = INCLUDE_CONFIGS)); [|apply IH].
    destruct (be_env st !! INCLUDE_CONFIGS) as [old|]; [|apply grows_refl].
    pose proof (call_grows v (setitem INCLUDE_CONFIGS (old +:+ " " +:+ v) st))
      as Hcall.
    destruct (call v _) as [[[|]|err] st1]; simpl in Hcall.
    + eapply grows_trans; [|apply IH].
      eapply grows_trans; [apply grows_setitem|done].
    + eapply grows_trans; [apply grows_setitem|done].
    + eapply grows_trans; [apply grows_setitem|done].
Qed.

Lemma for_item_grows key value val st :
  grows st (step_state (for_item call key value val st)).
Proof.
  destruct value as [| | |s|elts|]; try apply grows_refl; cbn [for_item].
  - destruct (is_valid s).
    + destruct (substitute_env_variables s (be_env st)) as [[v|] msgs];
        [apply grows_setitem|apply grows_logging_all].
    + destruct val; [apply grows_logging|apply grows_refl].
  - pose proof (for_val_grows key elts (initial_exports key st) val st) as H.
    destruct (for_val call key elts (initial_exports key st) val st)
      as [[exports v1] st1| |]; [|done..].
    destruct (decide (key = INCLUDE_CONFIGS)); [done|].
    eapply grows_trans; [done|apply grows_setitem].
Qed.

Lemma for_items_grows items val st :
  grows st (step_state (for_items call items val st)).
Proof.
  revert val st. induction items as [|[key value] items IH]; intros val st.
  - apply grows_refl.
  - cbn [for_items].
    pose proof (for_item_grows key value val st) as H.
    destruct (for_item call key value val st) as [val1 st1| |]; [|done..].
    eapply grows_trans; [done|apply IH].
Qed.

Lemma frame_grows json_file st :
  dom (be_env st) ⊆ dom (be_env (frame fs call json_file st).2)
  ∧ ∃ more, log (frame fs call json_file st).2
            = log st ++ INFO (loading_msg json_file) :: more.
Proof.
  assert (∀ st', grows (entered json_file st) st' →
            dom (be_env st) ⊆ dom (be_env st')
            ∧ ∃ more, log st' = log st ++ INFO (loading_msg json_file) :: more)
    as Hentered.
  { intros st' [Hd [more Hl]]. split; [done|]. exists more.
    rewrite Hl. simpl. by rewrite <- app_assoc. }
  unfold frame, try_body. fold (entered json_file st).
  destruct (fs json_file) as [| |data].
  - apply Hentered, grows_logging_all.
  - apply Hentered, grows_logging_all.
  - destruct data as [| | | | |items];
      try (apply Hentered, grows_logging_all).
    pose proof (for_items_grows items None (entered json_file st)) as H.
    destruct (for_items call items None (entered json_file st))
      as [val1 st1| |]; simpl in H; [by apply Hentered..|].
    apply Hentered. eapply grows_trans; [done|apply grows_logging_all].
Qed.

End Grows.

(** X4. A call never removes a variable from the environment, whether it
    returns [true] or [false], and never touches the log it was given: it
    appends [Loading LVS environment from] its path, then the records of
    what follows. *)
Theorem parse_config_file_grows (depth : nat) (fs : string -> file)
    (json_file : string) (st : state) :
  let st' := (parse_config_file depth fs json_file st).2 in
  dom (be_env st) ⊆ dom (be_env st')
  ∧ ∃ more, log st' = log st ++ INFO (loading_msg json_file) :: more.
Proof.
  revert json_file st. induction depth as [|depth IH]; intros json_file st.
  - apply (frame_grows fs _). intros child st0. apply grows_refl.
  - apply (frame_grows fs _). intros child st0.
    destruct (IH child st0) as [Hd [more Hl]]. split; [done|]. eauto.
Qed.

(** ** Includes *)

Lemma parse_config_file_returned depth fs json_file st :
  ∃ b st', parse_config_file depth fs json_file st = (Returned b, st').
Proof.
  rewrite parse_config_file_unfold. unfold frame.
  destruct (try_body _ _ _ _); eauto.
Qed.

Lemma include_resolves_child_eq (depth : nat) (fs : string -> file)
    (top s old : string) (st : state) :
  let child := substituted (be_env st) s in
  fs top = Parsed (JObject [(INCLUDE_CONFIGS, JArray [JString s])]) →
  be_env st !! INCLUDE_CONFIGS = Some old →
  resolvable (be_env st) s →
  child ∉ Py.split old →
  parse_config_file (S depth) fs top st
  = parse_config_file depth fs child
      (setitem INCLUDE_CONFIGS (old +:+ " " +:+ child) (entered top st)).
Proof.
  intros child Hfs Hold [Hvalid Hs] Hnew.
  rewrite (parse_config_file_unfold (S depth)). unfold frame, try_body.
  rewrite Hfs. fold (entered top st).
  cbn [for_items for_item for_val]. rewrite Hvalid, be_env_entered.
  rewrite (substitute_resolvable _ _ Hs). fold child.
  unfold initial_exports. rewrite be_env_entered, Hold.
  rewrite decide_False by done. rewrite decide_True by done.
  cbn [nested_call].
  destruct (parse_config_file_returned depth fs child
              (setitem INCLUDE_CONFIGS (old +:+ " " +:+ child) (entered top st)))
    as (b & st' & ->).
  destruct b; [|done]. by rewrite decide_True.
Qed.

(** X5. Including is resolving in the same environment: a file whose only
    entry includes one path not yet recorded ends exactly as the call for
    that path does, started in the environment in which the path has been
    appended to [INCLUDE_CONFIGS]; the result and every write of the child
    are the parent's. *)
Theorem include_resolves_child (depth : nat) (fs : string -> file)
    (top s old : string) (st : state) :
  let child := substituted (be_env st) s in
  fs top = Parsed (JObject [(INCLUDE_CONFIGS, JArray [JString s])]) →
  be_env st !! INCLUDE_CONFIGS = Some old →
  resolvable (be_env st) s →
  child ∉ Py.split old →
  parse_config_file (S depth) fs top st
  = parse_config_file depth fs child
      (setitem INCLUDE_CONFIGS (old +:+ " " +:+ child) (entered top st)).
Proof. apply include_resolves_child_eq. Qed.

Lemma include_resolves_child_witness :
  let st := setitem INCLUDE_CONFIGS "A B" (seed "A") in
  parse_config_file 1 diamond "B" st
  = parse_config_file 0 diamond "D"
      (setitem INCLUDE_CONFIGS "A B D" (entered "B" st)).
Proof.
  intros st.
  assert (be_env st !! INCLUDE_CONFIGS = Some "A B") as Hold
    by (vm_compute; reflexivity).
  assert (resolvable (be_env st) "D") as Hres
    by (split; [reflexivity|constructor]).
  assert (substituted (be_env st) "D" ∉ Py.split "A B") as Hnew.
  { apply (bool_decide_unpack _). vm_compute. exact I. }
  exact (include_resolves_child 0 diamond "B" "D" "A B" st eq_refl Hold Hres
           Hnew).
Defined.

Section Skips.

Variable call : string -> state -> outcome * state.

(** Elements already in [exports] are passed over, for every key. *)
Lemma for_val_known key strs exports val st :
  Forall (fun s => resolvable (be_env st) s
                   ∧ substituted (be_env st) s ∈ exports) strs →
  ∃ val', for_val call key (JString <$> strs) exports val st
          = Next (exports, val') st.
Proof.
  intros H. revert val. induction H as [|s strs [[Hvalid Hs] Hin] _ IH];
    intros val.
  - by exists val.
  - rewrite fmap_cons. cbn [for_val].
    rewrite Hvalid, (substitute_resolvable _ _ Hs).
    rewrite decide_True by done. apply IH.
Qed.

End Skips.

(** X6. Paths already recorded in [INCLUDE_CONFIGS] are not loaded: a file
    whose include list holds only such paths returns [true] with nothing
    loaded and the environment as it was. With [INCLUDE_CONFIGS] seeded
    with the file's own path, this is how a file that includes itself
    ends, when its path is one whitespace-free piece. *)
Theorem recorded_includes_skipped (depth : nat) (fs : string -> file)
    (top old : string) (paths : list string) (st : state) :
  fs top = Parsed (JObject [(INCLUDE_CONFIGS, JArray (JString <$> paths))]) →
  be_env st !! INCLUDE_CONFIGS = Some old →
  Forall (fun s => resolvable (be_env st) s
                   ∧ substituted (be_env st) s ∈ Py.split old) paths →
  parse_config_file depth fs top st = (Returned true, entered top st).
Proof.
  intros Hfs Hold Hpaths.
  rewrite parse_config_file_unfold. unfold frame, try_body.
  rewrite Hfs. fold (entered top st). cbn [for_items for_item].
  unfold initial_exports. rewrite be_env_entered, Hold.
  destruct (for_val_known (nested_call depth fs) INCLUDE_CONFIGS paths
              (Py.split old) None (entered top st)) as [val' ->]; [done|].
  by rewrite decide_True.
Qed.

Lemma recorded_includes_skipped_witness :
  parse_config_file 0 (disk [("cfg.json", includes ["cfg.json"])]) "cfg.json"
    (seed "cfg.json")
  = (Returned true, entered "cfg.json" (seed "cfg.json")).
Proof.
  apply (recorded_includes_skipped 0 _ "cfg.json" "cfg.json" ["cfg.json"]
           (seed "cfg.json") eq_refl).
  - vm_compute. reflexivity.
  - constructor; [|constructor]. split.
    + split; [reflexivity|constructor].
    + apply (bool_decide_unpack _). vm_compute. exact I.
Defined.

(** X7. A failed include ends the including call at once: when the nested
    call for an element of [INCLUDE_CONFIGS] returns [false], the caller
    returns [false] in the state the nested call left, logging nothing
    itself and reading neither the rest of the list nor the keys that
    follow. *)
Theorem include_failure_propagates (depth : nat) (fs : string -> file)
    (top s old : string) (st : state) (before after : list (string * json))
    (pre post : list json) (val1 val2 : option string)
    (exports2 : list string) (st1 st2 st3 : state) :
  let child := substituted (be_env st2) s in
  fs top = Parsed (JObject (before
             ++ (INCLUDE_CONFIGS, JArray (pre ++ JString s :: post)) :: after)) →
  for_items (nested_call depth fs) before None (entered top st)
  = Next val1 st1 →
  for_val (nested_call depth fs) INCLUDE_CONFIGS pre
    (initial_exports INCLUDE_CONFIGS st1) val1 st1 = Next (exports2, val2) st2 →
  resolvable (be_env st2) s → child ∉ exports2 →
  be_env st2 !! INCLUDE_CONFIGS = Some old →
  nested_call depth fs child
    (setitem INCLUDE_CONFIGS (old +:+ " " +:+ child) st2) = (Returned false, st3) →
  parse_config_file depth fs top st = (Returned false, st3).
Proof.
  intros child Hfs Hbefore Hpre [Hvalid Hs] Hnew Hold Hcall.
  rewrite parse_config_file_unfold.
  eapply frame_return; [done..|].
  cbn [for_item]. rewrite for_val_app, Hpre. cbn [for_val].
  rewrite Hvalid, (substitute_resolvable _ _ Hs). fold child.
  rewrite decide_False by done. rewrite decide_True by done.
  by rewrite Hold, Hcall.
Qed.

Lemma include_failure_propagates_witness :
  let fs := disk [("top", JObject [(INCLUDE_CONFIGS, JArray [JString "gone"]);
                                   ("LAYOUT_FILE", JString "top.gds")])] in
  parse_config_file 1 fs "top" (seed "top")
  = (Returned false,
     (parse_config_file 0 fs "gone"
        (setitem INCLUDE_CONFIGS "top gone" (entered "top" (seed "top")))).2).
Proof.
  intros fs.
  assert (resolvable (be_env (entered "top" (seed "top"))) "gone") as Hres
    by (split; [reflexivity|constructor]).
  assert (substituted (be_env (entered "top" (seed "top"))) "gone" ∉ ["top"])
    as Hnew.
  { apply (bool_decide_unpack _). vm_compute. exact I. }
  assert (be_env (entered "top" (seed "top")) !! INCLUDE_CONFIGS = Some "top")
    as Hold by (vm_compute; reflexivity).
  refine (include_failure_propagates 1 fs "top" "gone" "top" (seed "top")
            [] [("LAYOUT_FILE", JString "top.gds")] [] [] None None ["top"]
            (entered "top" (seed "top")) (entered "top" (seed "top")) _
            eq_refl eq_refl _ Hres Hnew Hold _).
  - vm_compute. reflexivity.
  - vm_compute. reflexivity.
Defined.






(** ** The list stored under a key *)

Lemma extend_NoDup exports vals : NoDup exports → NoDup (extend exports vals).
Proof.
  intros Hex. destruct (extend_spec exports vals) as (added & -> & Hnd & Hmem).
  apply NoDup_app. split; [done|]. split; [|done].
  intros v Hv Hadd. apply Hmem in Hadd as [_ Hnot]. done.
Qed.

Lemma initial_exports_atoms key st :
  Forall (fun x => atom x = true) (initial_exports key st).
Proof.
  unfold initial_exports. destruct (be_env st !! key); [apply split_atoms|].
  constructor.
Qed.

(** X9. The list of a key is kept as one string and read back by
    splitting it. For a key other than [INCLUDE_CONFIGS], present in the
    environment or not, resolving a list whose elements are each
    substituted to one whitespace-free piece returns [true], and the key
    then reads back as the list it read before followed by the new
    elements in their order, each once; if the old list had no duplicate,
    the new one has none. *)
Theorem list_reads_back (depth : nat) (fs : string -> file)
    (json_file key : string) (strs : list string) (st : state) :
  fs json_file = Parsed (JObject [(key, JArray (JString <$> strs))]) →
  key ≠ INCLUDE_CONFIGS →
  Forall (resolvable (be_env st)) strs →
  Forall (fun s => atom (substituted (be_env st) s) = true) strs →
  let r := parse_config_file depth fs json_file st in
  let vals := substituted (be_env st) <$> strs in
  r.1 = Returned true
  ∧ initial_exports key r.2 = extend (initial_exports key st) vals
  ∧ (∀ v, v ∈ vals → v ∈ initial_exports key r.2)
  ∧ (NoDup (initial_exports key st) → NoDup (initial_exports key r.2)).
Proof.
  intros Hfs Hkey Hstrs Hatoms r vals. subst r.
  rewrite parse_config_file_unfold. unfold frame, try_body. rewrite Hfs.
  fold (entered json_file st). cbn [for_items for_item].
  destruct (for_val_strings (nested_call depth fs) key strs
              (initial_exports key (entered json_file st)) None
              (entered json_file st) Hkey Hstrs) as [val' ->].
  rewrite decide_False by done. cbn [fst snd].
  change (initial_exports key (entered json_file st))
    with (initial_exports key st).
  rewrite be_env_entered. fold vals.
  assert (initial_exports key
            (setitem key (Py.join (extend (initial_exports key st) vals))
               (entered json_file st))
          = extend (initial_exports key st) vals) as ->.
  { unfold initial_exports at 1. rewrite be_env_setitem, lookup_insert_eq.
    apply split_join.
    destruct (extend_spec (initial_exports key st) vals)
      as (added & -> & _ & Hmem).
    apply Forall_app. split; [apply initial_exports_atoms|].
    apply Forall_forall. intros v [Hv _]%Hmem.
    apply list_elem_of_fmap in Hv as (s & -> & Hs).
    rewrite Forall_forall in Hatoms. by apply Hatoms. }
  split; [done|]. split; [done|]. split.
  - intros v. apply extend_includes.
  - apply extend_NoDup.
Qed.

Lemma list_reads_back_witness :
  let r := parse_config_file 0 ignore_list "cfg" pdk_seed in
  r.1 = Returned true
  ∧ initial_exports "LVS_IGNORE" r.2
    = extend (initial_exports "LVS_IGNORE" pdk_seed)
        (substituted (be_env pdk_seed)
           <$> ["$PDK_ROOT/ignore1"; "$PDK_ROOT/ignore1"]).
Proof.
  assert (resolvable (be_env pdk_seed) "$PDK_ROOT/ignore1") as Hres.
  { split; [reflexivity|].
    change (Py.findall "$PDK_ROOT/ignore1") with ["$PDK_ROOT"].
    constructor; [|constructor]. exists "/pdk". vm_compute. reflexivity. }
  assert (atom (substituted (be_env pdk_seed) "$PDK_ROOT/ignore1") = true)
    as Hatom by (vm_compute; reflexivity).
  assert ("LVS_IGNORE" ≠ INCLUDE_CONFIGS) as Hkey by discriminate.
  destruct (list_reads_back 0 ignore_list "cfg" "LVS_IGNORE"
              ["$PDK_ROOT/ignore1"; "$PDK_ROOT/ignore1"] pdk_seed eq_refl Hkey)
    as (H1 & H2 & _).
  - constructor; [exact Hres|]. constructor; [exact Hres|constructor].
  - constructor; [exact Hatom|]. constructor; [exact Hatom|constructor].
  - split; [exact H1|exact H2].
Defined.

(** * [get_project_config] *)

Section ProjectConfigFacts.

Variable Path : Type.
Variable joinpath : Path -> string -> Path.
Variable path_exists : Path -> bool.

Abbreviation get := (get_project_config Path joinpath path_exists).


(** X11. Whatever type is found, the configuration returned has the same
    seven keys and is consistent in itself: the user module is the one
    whose GDS exists in the project, [golden_wrapper] is the user module
    followed by [_empty], the netlists are named after the top module
    (under the caravel root) and the user module (under the project), and
    their extension goes with [netlist_type]: [.spice] for [spice], [.v]
    for [verilog]. *)
Theorem get_project_config_consistent (project_path caravel_root : Path)
    (project_config : gmap string (config_value Path)) :
  get project_path caravel_root = Config project_config →
  dom project_config
  = {[ "type"; "netlist_type"; "top_module"; "user_module"; "golden_wrapper";
       "top_netlist"; "user_netlist" ]}
  ∧ ∃ user_module top_module netlist_type top_dir user_dir ext,
      project_config !! "user_module" = Some (Text user_module)
      ∧ path_exists (joinpath project_path ("gds/" +:+ user_module +:+ ".gds"))
        = true
      ∧ project_config !! "golden_wrapper" = Some (Text (user_module +:+ "_empty"))
      ∧ project_config !! "top_module" = Some (Text top_module)
      ∧ project_config !! "netlist_type" = Some (Text netlist_type)
      ∧ project_config !! "top_netlist"
        = Some (Location (joinpath caravel_root (top_dir +:+ top_module +:+ ext)))
      ∧ project_config !! "user_netlist"
        = Some (Location (joinpath project_path
                            (user_dir +:+ user_module +:+ ext)))
      ∧ (netlist_type = "spice" ∧ ext = ".spice"
         ∨ netlist_type = "verilog" ∧ ext = ".v").
Proof.
  unfold get_project_config.
  destruct (path_exists (joinpath project_path
                           "gds/user_analog_project_wrapper.gds")) eqn:Ha;
    destruct (path_exists (joinpath project_path
                             "gds/user_project_wrapper.gds")) eqn:Hd;
    destruct (path_exists (joinpath project_path
                             "gds/openframe_project_wrapper.gds")) eqn:Ho;
    cbn [andb negb]; intros [= <-]; (split; [by rewrite !dom_insert_L, dom_empty_L, (right_id_L ∅ (∪))|]).
  - exists "user_analog_project_wrapper", "caravan", "spice", "spi/lvs/",
      "netgen/", ".spice".
    repeat apply conj; try (vm_compute; reflexivity); [exact Ha|by left].
  - exists "user_project_wrapper", "caravel", "verilog", "verilog/gl/",
      "verilog/gl/", ".v".
    repeat apply conj; try (vm_compute; reflexivity); [exact Hd|by right].
  - exists "openframe_project_wrapper", "caravel_openframe", "verilog",
      "verilog/gl/", "verilog/gl/", ".v".
    repeat apply conj; try (vm_compute; reflexivity); [exact Ho|by right].
Qed.

End ProjectConfigFacts.

Lemma get_project_config_consistent_witness :
  let files := ["proj/gds/user_project_wrapper.gds"] in
  ∃ project_config,
    get_project_config string slash (listed files) "proj" "caravel"
    = Config project_config
    ∧ project_config !! "golden_wrapper" = Some (Text "user_project_wrapper_empty")
    ∧ size (dom project_config) = 7.
Proof.
  intros files.
  destruct (get_project_config string slash (listed files) "proj" "caravel")
    as [project_config|code fatal] eqn:E; [|vm_compute in E; discriminate E].
  exists project_config. split; [reflexivity|].
  destruct (get_project_config_consistent string slash (listed files)
              "proj" "caravel" project_config E)
    as (Hdom & um & tm & nt & td & ud & ext & Hum & Hex & Hgw & _).
  injection E as <-. split; [vm_compute; reflexivity|].
  rewrite Hdom. vm_compute. reflexivity.
Defined.

(** * File names *)

(** [Path.name] and [Path.suffix] on sample paths, as [pathlib] gives
    them. *)
Example path_suffix_samples :
  (fun f => (Path_name f, Path_suffix f))
    <$> ["a.gds"; "a.gds.gz"; "dir/a.gds/"; "a."; ".gds"; "a/.gds"; "..";
         "a..gz"; "x.tgz"; ""; "/"; "a/./b.gz/."; "a.gds/.."; "foo.gz.txt";
         "a/b.gds//"; "./."]
  = [("a.gds", ".gds"); ("a.gds.gz", ".gz"); ("a.gds", ".gds"); ("a.", "");
     (".gds", ""); (".gds", ""); ("..", ""); ("a..gz", ".gz");
     ("x.tgz", ".tgz"); ("", ""); ("", ""); ("b.gz", ".gz"); ("..", "");
     ("foo.gz.txt", ".txt"); ("b.gds", ".gds"); ("", "")].
Proof. vm_compute. reflexivity. Qed.

Lemma contains_split c s :
  Py.contains c s = true ↔ ∃ p q, s = p +:+ String c q.
Proof.
  induction s as [|b s IH]; cbn [Py.contains].
  - split; [done|]. by intros ([|??] & q & ?).
  - rewrite orb_true_iff, IH. split.
    + intros [->%Ascii.eqb_eq|(p & q & ->)]; [by exists "", s|].
      by exists (String b p), q.
    + intros ([|a p] & q & H).
      * rewrite string_app_nil_l in H. injection H as -> ->.
        left. apply Ascii.eqb_refl.
      * rewrite string_app_cons in H. injection H as -> ->. right. eauto.
Qed.

Lemma rpartition_dot_None s :
  rpartition_dot s = None ↔ Py.contains "." s = false.
Proof.
  induction s as [|c s IH]; [done|]. cbn [rpartition_dot Py.contains].
  rewrite (Ascii.eqb_sym "." c), orb_false_iff, <- IH.
  destruct (rpartition_dot s) as [[stem ext]|].
  - split; [done|]. by intros [_ ?].
  - destruct (Ascii.eqb c "."); split; try done. by intros [? _].
Qed.

Lemma rpartition_dot_app stem ext :
  Py.contains "." ext = false →
  rpartition_dot (stem +:+ String "." ext) = Some (stem, ext).
Proof.
  intros Hext. induction stem as [|c stem IH].
  - rewrite string_app_nil_l. cbn [rpartition_dot].
    by rewrite (proj2 (rpartition_dot_None ext) Hext).
  - rewrite string_app_cons. cbn [rpartition_dot]. by rewrite IH.
Qed.

Lemma rpartition_dot_inv name stem ext :
  rpartition_dot name = Some (stem, ext) →
  name = stem +:+ String "." ext ∧ Py.contains "." ext = false.
Proof.
  revert stem. induction name as [|c name IH]; intros stem; [done|].
  cbn [rpartition_dot].
  destruct (rpartition_dot name) as [[stem' ext']|] eqn:E.
  - intros [= <- <-]. destruct (IH stem' eq_refl) as [-> Hext].
    by rewrite string_app_cons.
  - destruct (Ascii.eqb_spec c ".") as [->|_]; [|done].
    intros [= <- <-]. split; [done|]. by apply rpartition_dot_None.
Qed.

Lemma rpartition_dot_Some name stem ext :
  rpartition_dot name = Some (stem, ext) ↔
  name = stem +:+ String "." ext ∧ Py.contains "." ext = false.
Proof.
  split; [apply rpartition_dot_inv|]. intros [-> ?].
  by apply rpartition_dot_app.
Qed.

Lemma final_component_name name cur last :
  Py.contains "/" name = false →
  final_component cur last name = kept (cur +:+ name) last.
Proof.
  revert cur. induction name as [|c name IH]; intros cur.
  - by rewrite string_app_nil_r.
  - cbn [Py.contains final_component]. intros [Hc Hname]%orb_false_elim.
    rewrite Ascii.eqb_sym, Hc, IH by done. by rewrite string_app_assoc.
Qed.

Lemma final_component_dir dir name cur last :
  ∃ last', final_component cur last (dir +:+ String "/" name)
           = final_component "" last' name.
Proof.
  revert cur last. induction dir as [|c dir IH]; intros cur last.
  - rewrite string_app_nil_l. cbn [final_component]. eauto.
  - rewrite string_app_cons. cbn [final_component].
    destruct (Ascii.eqb c "/"); apply IH.
Qed.

Lemma kept_name name last : name ≠ "" → name ≠ "." → kept name last = name.
Proof. intros ??. unfold kept. rewrite decide_False; [done|]. by intros [|]. Qed.

Lemma substring_in_dot w0 w ext :
  w0 ≠ "."%char →
  substring_in (String w0 w) (String "." ext) = substring_in (String w0 w) ext.
Proof.
  intros H. cbn [substring_in Py.strip_prefix].
  by destruct (Ascii.eqb_spec w0 ".").
Qed.

(** X12. [is_binary_file] looks at the last extension of the file name
    only. For a name [stem.ext] (a non-empty stem, an extension without a
    dot), alone or under any directory, the suffix is [.ext] and the file
    is binary exactly when [ext] contains [gds] or [gz]; conversely a file
    that is binary has a name of that form, so names without a dot, names
    that only start with a dot and names that end with a dot are never
    binary. [is_not_binary_file] is the opposite answer. *)
Theorem is_binary_file_by_extension :
  (∀ dir stem ext,
     stem ≠ "" → Py.contains "/" stem = false →
     ext ≠ "" → Py.contains "/" ext = false → Py.contains "." ext = false →
     let name := stem +:+ String "." ext in
     Path_suffix name = String "." ext
     ∧ Path_suffix (dir +:+ String "/" name) = String "." ext
     ∧ is_binary_file name = substring_in "gds" ext || substring_in "gz" ext
     ∧ is_binary_file (dir +:+ String "/" name) = is_binary_file name
     ∧ is_not_binary_file (dir +:+ String "/" name)
       = negb (substring_in "gds" ext || substring_in "gz" ext))
  ∧ (∀ filename,
       is_binary_file filename = true →
       ∃ stem ext, Path_name filename = stem +:+ String "." ext
                   ∧ stem ≠ "" ∧ ext ≠ "" ∧ Py.contains "." ext = false).
Proof.
  split.
  - intros dir stem ext Hstem Hs1 Hext He1 He2 name.
    assert (Py.contains "/" name = false) as Hname.
    { destruct (Py.contains "/" name) eqn:E; [|done].
      apply contains_split in E as (p & q & E). subst name.
      assert (Py.contains "/" stem = true ∨ Py.contains "/" ext = true)
        as [|]; [|congruence..].
      clear -E. revert p E. induction stem as [|c stem IH]; intros p E.
      - rewrite string_app_nil_l in E. destruct p as [|a p].
        + rewrite string_app_nil_l in E. discriminate E.
        + rewrite string_app_cons in E. injection E as _ ->.
          right. apply contains_split. eauto.
      - destruct p as [|a p].
        + rewrite string_app_nil_l, string_app_cons in E.
          injection E as -> _. left. cbn [Py.contains].
          by rewrite Ascii.eqb_refl.
        + rewrite !string_app_cons in E. injection E as _ E.
          destruct (IH p E) as [H|H]; [|by right].
          left. cbn [Py.contains]. by rewrite H, orb_true_r. }
    assert (name ≠ "" ∧ name ≠ ".") as [Hn1 Hn2].
    { subst name. destruct stem as [|a stem]; [done|]. rewrite string_app_cons.
      split; [done|]. intros [= _ H]. by destruct stem. }
    assert (∀ f, Path_name f = name → Path_suffix f = String "." ext) as Hsuf.
    { intros f Hf. unfold Path_suffix. rewrite Hf.
      rewrite (proj2 (rpartition_dot_Some name stem ext)) by done.
      destruct stem; [done|]. by destruct ext. }
    assert (Path_name name = name) as Hn.
    { unfold Path_name. rewrite final_component_name by done.
      rewrite string_app_nil_l. by apply kept_name. }
    assert (Path_name (dir +:+ String "/" name) = name) as Hd.
    { unfold Path_name.
      destruct (final_component_dir dir name "" "") as [last' ->].
      rewrite final_component_name by done.
      rewrite string_app_nil_l. by apply kept_name. }
    unfold is_not_binary_file, is_binary_file.
    rewrite (Hsuf _ Hn), (Hsuf _ Hd), !substring_in_dot by done. done.
  - intros filename. unfold is_binary_file, Path_suffix.
    destruct (rpartition_dot (Path_name filename)) as [[stem ext]|] eqn:E;
      [|done].
    apply rpartition_dot_Some in E as [-> Hext].
    destruct stem as [|a stem]; [done|]. destruct ext as [|c ext]; [done|].
    intros _. by exists (String a stem), (String c ext).
Qed.

Lemma is_binary_file_by_extension_witness :
  is_binary_file "proj/gds/user_project_wrapper.gds" = true
  ∧ is_not_binary_file "proj/verilog/gl/user_project_wrapper.v" = true.
Proof.
  destruct is_binary_file_by_extension as [H _]. split.
  - pose proof (H "proj/gds" "user_project_wrapper" "gds"
                  ltac:(discriminate) eq_refl ltac:(discriminate) eq_refl
                  eq_refl) as (_ & _ & Hname & Hdir & _).
    change "proj/gds/user_project_wrapper.gds"
      with ("proj/gds" +:+ String "/" ("user_project_wrapper" +:+ String "." "gds")).
    rewrite Hdir, Hname. reflexivity.
  - pose proof (H "proj/verilog/gl" "user_project_wrapper" "v"
                  ltac:(discriminate) eq_refl ltac:(discriminate) eq_refl
                  eq_refl) as (_ & _ & _ & _ & Hnot).
    change "proj/verilog/gl/user_project_wrapper.v"
      with ("proj/verilog/gl" +:+ String "/"
              ("user_project_wrapper" +:+ String "." "v")).
    rewrite Hnot. reflexivity.
Defined.

(** X13. [is_path] answers whether a [/] occurs anywhere, [is_valid]
    whether none stands first: a string is a path exactly when it can be
    cut at a [/], it is rejected by [is_valid] exactly when it begins with
    one, so whatever [is_valid] rejects is a path and whatever is not a
    path is valid. *)
Theorem is_path_is_valid (s : string) :
  (is_path s = true ↔ ∃ p q, s = p +:+ String "/" q)
  ∧ (is_valid s = false ↔ ∃ q, s = String "/" q)
  ∧ (is_valid s = false → is_path s = true)
  ∧ (is_path s = false → is_valid s = true).
Proof.
  assert (is_path s = true ↔ ∃ p q, s = p +:+ String "/" q) as Hpath.
  { unfold is_path. rewrite <- contains_split.
    by destruct (Py.contains "/" s). }
  assert (is_valid s = false ↔ ∃ q, s = String "/" q) as Hvalid.
  { unfold is_valid, Py.startswith.
    destruct (Py.strip_prefix "/" s) as [r|] eqn:E.
    - apply strip_prefix_Some in E. split; [|done]. intros _. by exists r.
    - rewrite strip_prefix_None in E. split; [done|].
      intros [q Hq]. by destruct (E q). }
  split; [done|]. split; [done|].
  assert (is_valid s = false → is_path s = true) as H.
  { intros [q ->]%Hvalid. apply Hpath. by exists "", q. }
  split; [done|]. intros Hp. destruct (is_valid s) eqn:E; [done|].
  rewrite H in Hp by done. discriminate Hp.
Qed.

Lemma is_path_is_valid_witness :
  is_path "/abs/top.gds" = true ∧ is_valid "gds" = true.
Proof.
  split.
  - apply (is_path_is_valid "/abs/top.gds"). reflexivity.
  - apply (is_path_is_valid "gds"). reflexivity.
Defined.

(** * [print_lvs_config] *)







(** * [run_be_check] *)

Lemma parse_config_file_unparsable_false depth fs json_file st :
  (∀ items, fs json_file ≠ Parsed (JObject items)) →
  ∃ st', parse_config_file depth fs json_file st = (Returned false, st').
Proof.
  intros H. rewrite parse_config_file_unfold. unfold frame, try_body.
  destruct (fs json_file) as [| |data] eqn:E; [eauto..|].
  destruct data; eauto. by destruct (H items).
Qed.

Section RunBeCheckFacts.

Variable world : Type.
Variable isdir : string -> world -> bool.
Variable mkdir : string -> world -> option world.
Variable getcwd : world -> string.
Variable os_path_exists : string -> world -> bool.
Variable read : world -> string -> file.
Variable environ : world -> gmap string string.
Variable open_log : string -> world -> option world.
Variable subprocess_run :
  list string -> gmap string string -> string -> world -> option (Z * world).
Variable rmtree : string -> world -> option world.
Variable recursion_limit : nat.

Abbreviation run :=
  (run_be_check world isdir mkdir getcwd os_path_exists read environ open_log
     subprocess_run rmtree recursion_limit).

Variables design_directory output_directory design_name config_file pdk_root
  pdk check : string.

Let log_path := output_directory +:+ "/logs".
Let report_path := output_directory +:+ "/outputs/reports".
Let log_file_path := log_path +:+ "/" +:+ check +:+ "_check.log".
Let tmp_dir := output_directory +:+ "/tmp".
Let dirs := [log_path; tmp_dir; output_directory +:+ "/outputs"; report_path].

(** The state in which the configuration is resolved. *)
Let seeded (w : world) : state :=
  State (<[INCLUDE_CONFIGS := config_file]>
           (initial_be_env design_directory (getcwd w) tmp_dir log_path
              report_path pdk pdk_root design_name)) [].

Lemma run_be_check_unfold w w1 :
  ensure_dirs world isdir mkdir dirs w = inr w1 →
  os_path_exists config_file w1 = true →
  run design_directory output_directory design_name config_file pdk_root pdk
    check w
  = match parse_config_file recursion_limit (read w1) config_file (seeded w1) with
    | (Raised e, st) => (Raised e, w1, Resolve <$> log st)
    | (Returned false, st) => (Returned false, w1, Resolve <$> log st)
    | (Returned true, st) =>
        match be_script_of check with
        | None => (Raised (UnboundLocalError "be_script"), w1, Resolve <$> log st)
        | Some (be_script, extra_args) =>
            let records :=
              (Resolve <$> log st) ++ (Dump <$> print_lvs_config (be_env st)) in
            match open_log log_file_path w1 with
            | None => (Raised (OSError log_file_path), w1, records)
            | Some w2 =>
                let records :=
                  records
                  ++ [Resolve (INFO ("run: " +:+ be_script));
                      Resolve (INFO (check +:+ " output directory: "
                                     +:+ output_directory))] in
                match subprocess_run
                        ["bash"; getcwd w1 +:+ "/checks/be_checks/" +:+ be_script;
                         extra_args]
                        (environ w1 ∪ be_env st) log_file_path w2 with
                | None => (Raised (OSError "bash"), w2, records)
                | Some (stat, w3) =>
                    if (stat =? 4)%Z then
                      (Returned true, w3,
                       records ++ [WARNING (erc_warning_msg stat log_file_path)])
                    else if negb (stat =? 0)%Z then
                      (Returned false, w3,
                       records
                       ++ [Resolve (ERROR (check_failed_msg check stat
                                             log_file_path))])
                    else if isdir tmp_dir w3 then
                      match rmtree tmp_dir w3 with
                      | Some w4 => (Returned true, w4, records)
                      | None => (Raised (OSError tmp_dir), w3, records)
                      end
                    else (Returned true, w3, records)
                end
            end
        end
    end.
Proof.
  intros Hdirs Hexists. unfold run_be_check.
  fold log_path report_path tmp_dir. fold log_file_path. fold dirs.
  rewrite Hdirs, Hexists. reflexivity.
Qed.

(** X15. The script is not run unless the configuration resolves: once
    the four directories are there, a configuration file that does not
    exist, one that does not hold a JSON object, and any resolution that
    returns [false] each make [run_be_check] return [false] in the world
    the directory setup left; nothing is opened, run or removed. *)
Theorem run_be_check_needs_config (w w1 : world) :
  ensure_dirs world isdir mkdir dirs w = inr w1 →
  os_path_exists config_file w1 = false
  ∨ (∀ items, read w1 config_file ≠ Parsed (JObject items))
  ∨ (parse_config_file recursion_limit (read w1) config_file (seeded w1)).1
    = Returned false →
  ∃ records,
    run design_directory output_directory design_name config_file pdk_root pdk
      check w
    = (Returned false, w1, records).
Proof.
  intros Hdirs H.
  destruct (os_path_exists config_file w1) eqn:Hexists.
  - assert ((parse_config_file recursion_limit (read w1) config_file
               (seeded w1)).1 = Returned false) as Hparse.
    { destruct H as [|[H|]]; [done| |done].
      by destruct (parse_config_file_unparsable_false recursion_limit (read w1)
                     config_file (seeded w1) H) as [st' ->]. }
    rewrite (run_be_check_unfold w w1) by done.
    destruct (parse_config_file recursion_limit (read w1) config_file (seeded w1))
      as [[[|]|e] st]; [done| |done].
    by exists (Resolve <$> log st).
  - unfold run_be_check.
    fold log_path report_path tmp_dir. fold log_file_path. fold dirs.
    rewrite Hdirs, Hexists. cbn [negb]. eauto.
Qed.

(** X16. When the script is run, it is run once, with the resolved
    environment updated by [os.environ], so a variable of the process
    environment overrides what the configuration or the arguments gave it.
    The result is [true] exactly for the statuses 0 and 4; the work
    directory is removed for status 0 only, and status 4 leaves one
    warning as the last record. *)
Theorem run_be_check_status (w w1 w2 w3 : world) (st : state)
    (be_script extra_args : string) (stat : Z) :
  let env := environ w1 ∪ be_env st in
  ensure_dirs world isdir mkdir dirs w = inr w1 →
  os_path_exists config_file w1 = true →
  parse_config_file recursion_limit (read w1) config_file (seeded w1)
  = (Returned true, st) →
  be_script_of check = Some (be_script, extra_args) →
  open_log log_file_path w1 = Some w2 →
  subprocess_run
    ["bash"; getcwd w1 +:+ "/checks/be_checks/" +:+ be_script; extra_args]
    env log_file_path w2 = Some (stat, w3) →
  (∀ k v, environ w1 !! k = Some v → env !! k = Some v)
  ∧ (∀ k, environ w1 !! k = None → env !! k = be_env st !! k)
  ∧ ∃ records,
      run design_directory output_directory design_name config_file pdk_root
        pdk check w
      = if (stat =? 4)%Z then
          (Returned true, w3,
           records ++ [WARNING (erc_warning_msg stat log_file_path)])
        else if negb (stat =? 0)%Z then
          (Returned false, w3,
           records
           ++ [Resolve (ERROR (check_failed_msg check stat log_file_path))])
        else if isdir tmp_dir w3 then
          match rmtree tmp_dir w3 with
          | Some w4 => (Returned true, w4, records)
          | None => (Raised (OSError tmp_dir), w3, records)
          end
        else (Returned true, w3, records).
Proof.
  intros env Hdirs Hexists Hparse Hscript Hopen Hrun. split; [|split].
  - intros k v Hk. by apply lookup_union_Some_l.
  - intros k Hk. by apply lookup_union_r.
  - rewrite (run_be_check_unfold w w1) by done.
    rewrite Hparse, Hscript, Hopen. cbv zeta. fold env. rewrite Hrun.
    eexists. reflexivity.
Qed.

(** X17. For a check other than [LVS] and [OEB] no script is bound: the
    function never returns [true] and runs nothing. When an [os.mkdir] of
    the setup raises, the call raises with the directories made so far.
    Otherwise it ends in the world the setup left: it returns [false]
    exactly when the configuration is missing or its resolution returns
    [false], and raises [UnboundLocalError] for [be_script] exactly when
    the configuration is there and resolves. *)
Theorem run_be_check_unknown_check (w : world) :
  check ≠ "LVS" → check ≠ "OEB" →
  let r :=
    run design_directory output_directory design_name config_file pdk_root pdk
      check w in
  r.1.1 ≠ Returned true
  ∧ match ensure_dirs world isdir mkdir dirs w with
    | inl (p, w') => r = (Raised (OSError p), w', [])
    | inr w1 =>
        let resolved :=
          (parse_config_file recursion_limit (read w1) config_file
             (seeded w1)).1 in
        r.1.2 = w1
        ∧ (r.1.1 = Returned false
           ↔ os_path_exists config_file w1 = false ∨ resolved = Returned false)
        ∧ (r.1.1 = Raised (UnboundLocalError "be_script")
           ↔ os_path_exists config_file w1 = true ∧ resolved = Returned true)
    end.
Proof.
  intros HLVS HOEB r.
  assert (be_script_of check = None) as Hscript.
  { unfold be_script_of. by rewrite !decide_False. }
  destruct (ensure_dirs world isdir mkdir dirs w) as [[p w']|w1] eqn:Hdirs.
  - assert (r = (Raised (OSError p), w', [])) as Hr.
    { subst r. unfold run_be_check.
      fold log_path report_path tmp_dir. fold log_file_path. fold dirs.
      by rewrite Hdirs. }
    split; [by rewrite Hr|done].
  - cbv zeta. destruct (os_path_exists config_file w1) eqn:Hexists.
    + subst r. rewrite (run_be_check_unfold w w1) by done. rewrite Hscript.
      destruct (parse_config_file_returned recursion_limit (read w1)
                  config_file (seeded w1)) as (b & st & Hparse).
      rewrite Hparse. destruct b; cbn [fst snd].
      * split; [done|]. split; [done|]. split.
        -- split; [done|]. by intros [|].
        -- by split.
      * split; [done|]. split; [done|]. split.
        -- split; [by right|done].
        -- split; [done|]. by intros [_ ?].
    + assert (r = (Returned false, w1,
                   [Resolve (ERROR (missing_config_msg check config_file))]))
        as Hr.
      { subst r. unfold run_be_check.
        fold log_path report_path tmp_dir. fold log_file_path. fold dirs.
        by rewrite Hdirs, Hexists. }
      rewrite Hr. cbn [fst snd]. split; [done|]. split; [done|]. split.
      * split; [by left|done].
      * split; [done|]. by intros [? _].
Qed.

Lemma seeded_name w name v :
  be_env (seeded w) !! name = Some v → name ≠ "" ∧ all_word name = true.
Proof.
  unfold seeded, initial_be_env. cbn [be_env]. cbv zeta. intros H.
  repeat (apply lookup_insert_Some in H;
          destruct H as [[<- _]|[_ H]]; [by split|]).
  by rewrite lookup_empty in H.
Qed.

Lemma parse_single_reference depth fs json_file key pre name rest v st :
  fs json_file
  = Parsed (JObject [(key, JString (pre +:+ String "$" (name +:+ rest)))]) →
  is_valid (pre +:+ String "$" (name +:+ rest)) = true →
  Py.contains "$" pre = false → Py.contains "$" rest = false →
  name ≠ "" → all_word name = true → Py.word_prefix rest = "" →
  be_env st !! name = Some v →
  parse_config_file depth fs json_file st
  = (Returned true, setitem key (pre +:+ v +:+ rest) (entered json_file st)).
Proof.
  intros Hfs Hvalid Hpre Hrest Hne Hname Hstop Hv.
  rewrite parse_config_file_unfold. unfold frame, try_body. rewrite Hfs.
  fold (entered json_file st). cbn [for_items for_item].
  rewrite Hvalid, be_env_entered, substitute_one_token by done.
  by rewrite Hv.
Qed.

(** X18. A configuration value is resolved with the arguments of the
    call, the script is run with the process environment on top. For a
    configuration with one scalar that refers to a variable the function
    seeds ([$UPRJ_ROOT], [$PDK_ROOT], ...), the script's environment is
    [os.environ] over the seeds and the key set to the value with the
    argument substituted. So when the process environment defines the
    variable too, the script sees the process's value for the variable
    next to a key resolved with the argument's. *)
Theorem run_be_check_resolves_with_arguments (w w1 w2 : world)
    (key pre name rest v be_script extra_args : string) :
  let ref := pre +:+ String "$" (name +:+ rest) in
  let env :=
    environ w1 ∪ <[key := pre +:+ v +:+ rest]> (be_env (seeded w1)) in
  ensure_dirs world isdir mkdir dirs w = inr w1 →
  os_path_exists config_file w1 = true →
  read w1 config_file = Parsed (JObject [(key, JString ref)]) →
  is_valid ref = true →
  Py.contains "$" pre = false → Py.contains "$" rest = false →
  Py.word_prefix rest = "" →
  be_env (seeded w1) !! name = Some v →
  be_script_of check = Some (be_script, extra_args) →
  open_log log_file_path w1 = Some w2 →
  (∀ e, environ w1 !! name = Some e → environ w1 !! key = None →
        env !! name = Some e ∧ env !! key = Some (pre +:+ v +:+ rest))
  ∧ ∀ stat w3,
      subprocess_run
        ["bash"; getcwd w1 +:+ "/checks/be_checks/" +:+ be_script; extra_args]
        env log_file_path w2 = Some (stat, w3) →
      stat ≠ 0%Z →
      (run design_directory output_directory design_name config_file pdk_root
         pdk check w).1
      = (Returned (stat =? 4)%Z, w3).
Proof.
  intros ref env Hdirs Hexists Hread Hvalid Hpre Hrest Hstop Hv Hscript Hopen.
  destruct (seeded_name w1 name v Hv) as [Hne Hname]. split.
  - intros e He Hkey. split.
    + by apply lookup_union_Some_l.
    + unfold env. rewrite lookup_union_r by done. apply lookup_insert_eq.
  - intros stat w3 Hrun Hstat.
    rewrite (run_be_check_unfold w w1) by done.
    rewrite (parse_single_reference recursion_limit (read w1) config_file key
               pre name rest v (seeded w1)) by done.
    rewrite Hscript, Hopen. cbv zeta. rewrite be_env_setitem, be_env_entered.
    fold env. rewrite Hrun.
    destruct (stat =? 4)%Z; [done|].
    destruct (stat =? 0)%Z eqn:E; [|done].
    by apply Z.eqb_eq in E.
Qed.

End RunBeCheckFacts.

(** The directories [run_be_check] leaves behind in the small system. *)
Lemma run_be_check_needs_config_witness :
  ∃ records,
    toy_run_be_check 0 "missing.json" "LVS"
    = (Returned false,
       ({[ "/out/logs"; "/out/tmp"; "/out/outputs"; "/out/outputs/reports" ]}
          : gset string),
       records).
Proof.
  unfold toy_run_be_check.
  apply (run_be_check_needs_config (gset string) toy_isdir toy_mkdir
           (fun _ => "/opt/precheck")
           (fun p _ => bool_decide (p ∈ toy_files.*1)) (fun _ => disk toy_files)
           toy_environ (fun _ w => Some w) (fun _ _ _ w => Some (0%Z, w))
           toy_rmtree 8 "/design" "/out" "top" "missing.json" "/pdk" "sky130A"
           "LVS" ∅).
  - vm_compute. reflexivity.
  - left. vm_compute. reflexivity.
Defined.

Lemma run_be_check_status_witness :
  ∃ records,
    toy_run_be_check 4 "lvs.json" "LVS"
    = (Returned true,
       ({[ "/out/logs"; "/out/tmp"; "/out/outputs"; "/out/outputs/reports" ]}
          : gset string),
       records
       ++ [WARNING "WARNING ERC CHECK FAILED, stat=4, see /out/logs/LVS_check.log"]).
Proof.
  unfold toy_run_be_check.
  pose (w1 := ({[ "/out/logs"; "/out/tmp"; "/out/outputs";
                  "/out/outputs/reports" ]} : gset string)).
  destruct (run_be_check_status (gset string) toy_isdir toy_mkdir
              (fun _ => "/opt/precheck")
              (fun p _ => bool_decide (p ∈ toy_files.*1))
              (fun _ => disk toy_files)
              toy_environ (fun _ w => Some w) (fun _ _ _ w => Some (4%Z, w))
              toy_rmtree 8 "/design" "/out" "top" "lvs.json" "/pdk" "sky130A"
              "LVS" ∅ w1 w1 w1
              (parse_config_file 8 (disk toy_files) "lvs.json"
                 (State (<[INCLUDE_CONFIGS := "lvs.json"]>
                           (initial_be_env "/design" "/opt/precheck" "/out/tmp"
                              "/out/logs" "/out/outputs/reports" "sky130A"
                              "/pdk" "top")) [])).2
              "run_be_checks" "--nooeb" 4%Z)
    as (_ & _ & records & H).
  - vm_compute. reflexivity.
  - vm_compute. reflexivity.
  - vm_compute. reflexivity.
  - vm_compute. reflexivity.
  - reflexivity.
  - reflexivity.
  - exists records. exact H.
Defined.

Lemma run_be_check_unknown_check_witness :
  (toy_run_be_check 0 "lvs.json" "XOR").1.1
  = Raised (UnboundLocalError "be_script").
Proof.
  unfold toy_run_be_check.
  destruct (run_be_check_unknown_check (gset string) toy_isdir toy_mkdir
              (fun _ => "/opt/precheck")
              (fun p _ => bool_decide (p ∈ toy_files.*1))
              (fun _ => disk toy_files)
              toy_environ (fun _ w => Some w) (fun _ _ _ w => Some (0%Z, w))
              toy_rmtree 8 "/design" "/out" "top" "lvs.json" "/pdk" "sky130A"
              "XOR" ∅)
    as [_ H].
  - discriminate.
  - discriminate.
  - assert (ensure_dirs (gset string) toy_isdir toy_mkdir
              ["/out" +:+ "/logs"; "/out" +:+ "/tmp"; "/out" +:+ "/outputs";
               "/out" +:+ "/outputs/reports"] ∅
            = inr ({[ "/out/logs"; "/out/tmp"; "/out/outputs";
                      "/out/outputs/reports" ]} : gset string)) as E
      by (vm_compute; reflexivity).
    rewrite E in H. destruct H as (_ & _ & H).
    apply H. split; vm_compute; reflexivity.
Defined.

Lemma run_be_check_resolves_with_arguments_witness :
  (toy_run_be_check 4 "tech.json" "LVS").1
  = (Returned true,
     ({[ "/out/logs"; "/out/tmp"; "/out/outputs"; "/out/outputs/reports" ]}
        : gset string)).
Proof.
  unfold toy_run_be_check.
  pose (w1 := ({[ "/out/logs"; "/out/tmp"; "/out/outputs";
                  "/out/outputs/reports" ]} : gset string)).
  destruct (run_be_check_resolves_with_arguments (gset string) toy_isdir
              toy_mkdir (fun _ => "/opt/precheck")
              (fun p _ => bool_decide (p ∈ toy_files.*1))
              (fun _ => disk toy_files)
              toy_environ (fun _ w => Some w) (fun _ _ _ w => Some (4%Z, w))
              toy_rmtree 8 "/design" "/out" "top" "tech.json" "/pdk" "sky130A"
              "LVS" ∅ w1 w1 "TECH_FILE" "" "PDK_ROOT" "/sky130A/libs.tech"
              "/pdk" "run_be_checks" "--nooeb")
    as [_ Hrun].
  - vm_compute. reflexivity.
  - vm_compute. reflexivity.
  - vm_compute. reflexivity.
  - vm_compute. reflexivity.
  - reflexivity.
  - reflexivity.
  - reflexivity.
  - vm_compute. reflexivity.
  - vm_compute. reflexivity.
  - reflexivity.
  - apply (Hrun 4%Z w1); [reflexivity|discriminate].
Defined.
